(** * cliplin: the context-store facade and the collection routing

    A shallow embedding of [src/cliplin/utils/chromadb.py]: the routing
    table [COLLECTION_MAPPINGS], the two path classifiers
    [get_collection_for_file] and [get_file_type], and the methods of
    [ChromaDBContextStore] over an explicit model of the backing engine. *)

From Stdlib Require Import Ascii String.
From stdpp Require Import base option list strings gmap.

Local Open Scope string_scope.
Local Open Scope list_scope.

(** ** Exceptions and results *)

(** A Python exception, identified by the name of its class.  Everything
    modelled here derives from [Exception], so [except Exception] catches
    every value of this type. *)
Inductive exn : Type := Exn (cls : string).

Definition exn_class (e : exn) : string := let 'Exn c := e in c.

Definition ValueError : exn := Exn "ValueError".

Global Instance exn_eq_dec : EqDecision exn.
Proof. solve_decision. Defined.

(** The outcome of a call: a value, or a raised exception. *)
Inductive result (A : Type) : Type :=
  | Ok (a : A)
  | Raise (e : exn).
Arguments Ok {A} a.
Arguments Raise {A} e.

Global Instance result_ret : MRet result := fun A a => Ok a.
Global Instance result_bind : MBind result := fun A B f r =>
  match r with
  | Ok a => f a
  | Raise e => Raise e
  end.

(** ** Pure paths (pathlib, POSIX flavour) *)

Module pathlib.

(** [anchor] is the root ([""] for a relative path), [tail] the components
    after it. *)
Record Path : Type := mkPath { anchor : string; tail : list string }.

Global Instance Path_eq_dec : EqDecision Path.
Proof. solve_decision. Defined.

(** [split_sep acc s]: the pieces of [s] between the separators ['/'],
    [acc] being the (reversed) piece under construction. *)
Fixpoint split_sep (acc : string) (s : string) : list string :=
  match s with
  | EmptyString => [String.rev acc]
  | String c s' =>
      if Ascii.eqb c "/" then String.rev acc :: split_sep "" s'
      else split_sep (String c acc) s'
  end.

(** The root of a path string: exactly two leading slashes are kept,
    any other positive number collapses to one. *)
Definition parse_root (s : string) : string :=
  match s with
  | String "/" (String "/" (String "/" _)) => "/"
  | String "/" (String "/" _) => "//"
  | String "/" _ => "/"
  | _ => ""
  end.

(** [PurePath s]: empty components and ["."] components are dropped. *)
Definition PurePath (s : string) : Path :=
  {| anchor := parse_root s;
     tail := List.filter (fun x => negb (String.eqb x "" || String.eqb x "."))
               (split_sep "" s) |}.

(** [p.parts]: the root, when there is one, counts as the first part. *)
Definition parts (p : Path) : list string :=
  if String.eqb (anchor p) "" then tail p else anchor p :: tail p.

Fixpoint join (sep : string) (l : list string) : string :=
  match l with
  | [] => ""
  | [x] => x
  | x :: l' => (x ++ sep ++ join sep l')%string
  end.

(** [str(p)] *)
Definition str (p : Path) : string :=
  match parts p with
  | [] => "."
  | _ => (anchor p ++ join "/" (tail p))%string
  end.

(** [p / name] for a single relative component *)
Definition div (p : Path) (name : string) : Path :=
  {| anchor := anchor p; tail := tail p ++ [name] |}.

(** [p.parent] *)
Definition parent (p : Path) : Path :=
  {| anchor := anchor p; tail := removelast (tail p) |}.

(** [l1] is an initial segment of [l2] *)
Fixpoint starts_with_parts (l1 l2 : list string) : bool :=
  match l1, l2 with
  | [], _ => true
  | x :: l1', y :: l2' => String.eqb x y && starts_with_parts l1' l2'
  | _ :: _, [] => false
  end.

Definition is_relative_to (self other : Path) : bool :=
  String.eqb (anchor self) (anchor other)
  && starts_with_parts (tail other) (tail self).

(** [self.relative_to(other)]: raises [ValueError] unless the parts of
    [other] begin the parts of [self]. *)
Definition relative_to (self other : Path) : result Path :=
  if is_relative_to self other
  then Ok {| anchor := ""; tail := drop (length (tail other)) (tail self) |}
  else Raise ValueError.

(** [fnmatch.fnmatchcase] on the characters of a name.  ['*'] matches any
    run of characters, ['?'] any single one, every other character
    itself; bracket classes do not occur in the routing table and are
    not interpreted. *)
Fixpoint fnmatch_chars (pat name : list ascii) : bool :=
  match pat with
  | [] => match name with [] => true | _ => false end
  | p :: pat' =>
      if Ascii.eqb p "*" then
        (fix star (n : list ascii) : bool :=
           fnmatch_chars pat' n
           || match n with [] => false | _ :: n' => star n' end) name
      else
        match name with
        | [] => false
        | c :: name' =>
            (Ascii.eqb p "?" || Ascii.eqb p c) && fnmatch_chars pat' name'
        end
  end.

Definition fnmatchcase (name pat : string) : bool :=
  fnmatch_chars (list_ascii_of_string pat) (list_ascii_of_string name).

(** [all(fnmatchcase(part, pat) for part, pat in zip(ps, pats))] *)
Fixpoint zip_fnmatch (ps pats : list string) : bool :=
  match ps, pats with
  | p :: ps', pat :: pats' => fnmatchcase p pat && zip_fnmatch ps' pats'
  | _, _ => true
  end.

(** [self.match(path_pattern)]: a relative pattern is matched from the
    right, an anchored one against the whole path; the empty pattern is
    refused. *)
Definition match_ (self : Path) (path_pattern : string) : result bool :=
  let pat := PurePath path_pattern in
  match parts pat with
  | [] => Raise ValueError
  | _ =>
      if negb (String.eqb (anchor pat) "") then
        if negb (String.eqb (anchor pat) (anchor self)) then Ok false
        else if negb (length (parts pat) =? length (parts self))%nat then Ok false
        else Ok (zip_fnmatch (rev (parts self)) (rev (tail pat)))
      else if (length (parts self) <? length (parts pat))%nat then Ok false
      else Ok (zip_fnmatch (rev (parts self)) (rev (parts pat)))
  end.

(** [p.name]: the final component, [""] when there is none. *)
Definition name (p : Path) : string := List.last (tail p) "".

End pathlib.

Import pathlib.

(** [s.startswith(prefix)] *)
Definition startswith (s prefix : string) : bool := String.prefix prefix s.

(** ** The routing table *)

Record Mapping : Type := mkMapping {
  directories : list string;
  file_pattern : string;
  type : string
}.

(** The dict literal, in insertion order (the order [.items()] iterates). *)
Definition COLLECTION_MAPPINGS : list (string * Mapping) :=
  [ ("business-and-architecture",
      {| directories := ["docs/adrs"; "docs/business"];
         file_pattern := "*.md"; type := "adr" |});
    ("features",
      {| directories := ["docs/features"];
         file_pattern := "*.feature"; type := "feature" |});
    ("tech-specs",
      {| directories := ["docs/ts4"];
         file_pattern := "*.ts4"; type := "ts4" |});
    ("uisi",
      {| directories := ["docs/ui-intent"];
         file_pattern := "*.yaml"; type := "ui-intent" |}) ].

Definition REQUIRED_COLLECTIONS : list string := COLLECTION_MAPPINGS.*1.

(** ** The classifiers *)

Section Classifier.
Context {A : Type}.
(** What a hit returns: the collection name, or the mapping's type. *)
Variable pick : string -> Mapping -> A.
Variables (file_path relative_path : Path).

(** The inner loop, over the directories of one mapping. *)
Fixpoint scan_directories (collection_name : string) (mapping : Mapping)
    (dirs : list string) : result (option A) :=
  match dirs with
  | [] => Ok None
  | directory :: dirs' =>
      if startswith (str relative_path) directory then
        hit ← match_ file_path (file_pattern mapping);
        if hit : bool then Ok (Some (pick collection_name mapping))
        else scan_directories collection_name mapping dirs'
      else scan_directories collection_name mapping dirs'
  end.

(** The outer loop, over the items of the table. *)
Fixpoint scan_mappings (items : list (string * Mapping)) : result (option A) :=
  match items with
  | [] => Ok None
  | (collection_name, mapping) :: items' =>
      r ← scan_directories collection_name mapping (directories mapping);
      match r with
      | Some a => Ok (Some a)
      | None => scan_mappings items'
      end
  end.
End Classifier.

Definition get_collection_for_file (file_path project_root : Path)
    : result (option string) :=
  relative_path ← relative_to file_path project_root;
  scan_mappings (fun collection_name _ => collection_name)
    file_path relative_path COLLECTION_MAPPINGS.

Definition get_file_type (file_path project_root : Path)
    : result (option string) :=
  relative_path ← relative_to file_path project_root;
  scan_mappings (fun _ mapping => type mapping)
    file_path relative_path COLLECTION_MAPPINGS.

(** ** The backing engine, as the store sees it *)

(** Metadata values: the scalars the engine stores. *)
Inductive Scalar : Type :=
  | SStr (s : string)
  | SInt (z : Z)
  | SBool (b : bool).

Global Instance Scalar_eq_dec : EqDecision Scalar.
Proof. solve_decision. Defined.

(** [Dict[str, Any]] used as a metadata object *)
Abbreviation Metadata := (gmap string Scalar).

(** A collection handle: what [client.get_collection] hands back. *)
Record Collection : Type := mkCollection {
  id : nat;
  name : string;
  metadata : option Metadata
}.

Global Instance Collection_eq_dec : EqDecision Collection.
Proof. solve_decision. Defined.

(** The bundle returned by [col.get]; a field is [None] when the engine
    left it out. *)
Record GetResult : Type := mkGetResult {
  ids : option (list string);
  documents : option (list string);
  metadatas : option (list Metadata)
}.

(** A value passed by keyword to the engine. *)
Inductive Arg : Type :=
  | AStrs (l : list string)
  | AMetas (l : list Metadata).

Global Instance Arg_eq_dec : EqDecision Arg.
Proof. solve_decision. Defined.

(** The engine client. *)
Inductive Client : Type := client_at (path : string).

(** One entry of the log of calls made to the engine and to the file
    system, in the order they were issued. *)
Inductive Call : Type :=
  | call_mkdir (p : Path)
  | call_PersistentClient (path : string)
  | call_list_collections
  | call_get_or_create_collection (name : string) (metadata : option Metadata)
  | call_get_collection (name : string)
  | call_create_collection (name : string) (metadata : option Metadata)
  | call_delete_collection (name : string)
  | call_get (col : Collection) (ids include : option (list string))
  | call_add (col : Collection) (ids documents : list string)
      (metadatas : list Metadata)
  | call_update (col : Collection) (kwargs : gmap string Arg)
  | call_delete (col : Collection) (ids : list string)
  | call_modify (col : Collection) (name : option string)
      (metadata : option Metadata).

Global Instance Call_eq_dec : EqDecision Call.
Proof. solve_decision. Defined.

(** The operations of the engine over its own state [E].  Each returns its
    outcome together with the state it leaves behind; [modify] also returns
    the handle as the call leaves it (it is updated in place). *)
Record Engine (E : Type) : Type := mkEngine {
  os_mkdir : Path -> E -> result unit * E;
  os_resolve : Path -> E -> Path;
  PersistentClient : string -> E -> result Client * E;
  client_list_collections : Client -> E -> result (list Collection) * E;
  client_get_or_create_collection :
    Client -> string -> option Metadata -> E -> result Collection * E;
  client_get_collection : Client -> string -> E -> result Collection * E;
  client_create_collection :
    Client -> string -> option Metadata -> E -> result Collection * E;
  client_delete_collection : Client -> string -> E -> result unit * E;
  col_get :
    Collection -> option (list string) -> option (list string) ->
    E -> result GetResult * E;
  col_add :
    Collection -> list string -> list string -> list Metadata ->
    E -> result unit * E;
  col_update : Collection -> gmap string Arg -> E -> result unit * E;
  col_delete : Collection -> list string -> E -> result unit * E;
  col_modify :
    Collection -> option string -> option Metadata ->
    E -> result Collection * E
}.
Arguments os_mkdir {E}.
Arguments os_resolve {E}.
Arguments PersistentClient {E}.
Arguments client_list_collections {E}.
Arguments client_get_or_create_collection {E}.
Arguments client_get_collection {E}.
Arguments client_create_collection {E}.
Arguments client_delete_collection {E}.
Arguments col_get {E}.
Arguments col_add {E}.
Arguments col_update {E}.
Arguments col_delete {E}.
Arguments col_modify {E}.

(** ** The store *)

(** The fields of a [ChromaDBContextStore] object. *)
Record ChromaDBContextStore : Type := mkStore {
  _project_root : Path;
  _client : option Client
}.

(** [ChromaDBContextStore(project_root)] *)
Definition get_context_store (project_root : Path) : ChromaDBContextStore :=
  {| _project_root := project_root; _client := None |}.

Definition get_chromadb_path (project_root : Path) : Path :=
  div (div (div (div project_root ".cliplin") "data") "context") "chroma.sqlite3".

(** What a method runs in: the store object, the engine, and the log. *)
Record World (E : Type) : Type := mkWorld {
  self : ChromaDBContextStore;
  engine : E;
  calls : list Call
}.
Arguments mkWorld {E}.
Arguments self {E}.
Arguments engine {E}.
Arguments calls {E}.

(** A method: from a world to an outcome and the world it leaves.  A raised
    exception keeps the effects made before it. *)
Definition M (E A : Type) : Type := World E -> result A * World E.

Global Instance M_ret {E} : MRet (M E) := fun A a w => (Ok a, w).
Global Instance M_bind {E} : MBind (M E) := fun A B f m w =>
  match m w with
  | (Ok a, w') => f a w'
  | (Raise e, w') => (Raise e, w')
  end.

Definition raise {E A} (e : exn) : M E A := fun w => (Raise e, w).

(** [try: body / except Exception as e: handler e] *)
Definition try_except {E A} (body : M E A) (handler : exn -> M E A) : M E A :=
  fun w =>
    match body w with
    | (Ok a, w') => (Ok a, w')
    | (Raise e, w') => handler e w'
    end.

(** Issue one call: log it, and let the engine answer. *)
Definition invoke {E A} (c : Call) (op : E -> result A * E) : M E A :=
  fun w =>
    let '(r, e') := op (engine w) in
    (r, {| self := self w; engine := e'; calls := calls w ++ [c] |}).

Definition get_self {E} : M E ChromaDBContextStore := fun w => (Ok (self w), w).

Definition set_client {E} (c : Client) : M E unit := fun w =>
  (Ok tt, {| self := {| _project_root := _project_root (self w);
                        _client := Some c |};
             engine := engine w; calls := calls w |}).

(** [x or default] on an optional list: [None] and the empty list are falsy. *)
Definition list_or {A} (x : option (list A)) (default : list A) : list A :=
  match x with
  | None | Some [] => default
  | Some l => l
  end.

(** [metadata or {}] *)
Definition dict_or_empty (x : option Metadata) : Metadata :=
  match x with
  | None => ∅
  | Some m => m
  end.

Section Store.
Context {E : Type}.
Variable eng : Engine E.

Definition get_chromadb_client (project_root : Path) : M E Client :=
  let db_path := get_chromadb_path project_root in
  invoke (call_mkdir (parent db_path)) (os_mkdir eng (parent db_path));;
  absolute_path ← (fun w => (Ok (os_resolve eng (parent db_path) (engine w)), w));
  (* the settings (telemetry off, reset allowed) do not bear on what follows;
     the handler reports to the console and re-raises *)
  try_except
    (invoke (call_PersistentClient (str absolute_path))
       (PersistentClient eng (str absolute_path)))
    (fun e => raise e).

Definition _client_or_raise : M E Client :=
  s ← get_self;
  match _client s with
  | Some c => mret c
  | None =>
      c ← get_chromadb_client (_project_root s);
      set_client c;;
      mret c
  end.

Definition verify_collections (client : Client) : M E (list string) :=
  cols ← invoke call_list_collections (client_list_collections eng client);
  let existing_collections := List.map name cols in
  let missing :=
    List.filter (fun col => negb (bool_decide (col ∈ existing_collections)))
      REQUIRED_COLLECTIONS in
  mret missing.

(** [for name in names: client.get_or_create_collection(name=name)] *)
Fixpoint create_each (client : Client) (names : list string) : M E unit :=
  match names with
  | [] => mret tt
  | name :: names' =>
      invoke (call_get_or_create_collection name None)
        (client_get_or_create_collection eng client name None);;
      create_each client names'
  end.

Definition ensure_collections : M E (list string) :=
  client ← _client_or_raise;
  missing ← verify_collections client;
  create_each client missing;;
  mret missing.

Definition get_collection (collection_name : string) : M E Collection :=
  client ← _client_or_raise;
  invoke (call_get_collection collection_name)
    (client_get_collection eng client collection_name).

Definition document_exists (collection_name document_id : string) : M E bool :=
  try_except
    (col ← get_collection collection_name;
     existing ← invoke (call_get col (Some [document_id]) None)
                  (col_get eng col (Some [document_id]) None);
     match ids existing with
     | Some l => mret (0 <? length l)%nat
     | None => raise (Exn "TypeError")
     end)
    (fun _ => mret false).

Definition add_documents (collection_name : string) (ids documents : list string)
    (metadatas : option (list Metadata)) : M E nat :=
  let metadatas := list_or metadatas (replicate (length ids) ∅) in
  let metadatas :=
    if negb (length metadatas =? length ids)%nat
    then replicate (length ids) ∅ else metadatas in
  col ← get_collection collection_name;
  invoke (call_add col ids documents metadatas)
    (col_add eng col ids documents metadatas);;
  mret (length ids).

Definition update_documents (collection_name : string) (ids : list string)
    (documents : option (list string)) (metadatas : option (list Metadata))
    : M E nat :=
  col ← get_collection collection_name;
  let kwargs : gmap string Arg := {[ "ids" := AStrs ids ]} in
  let kwargs :=
    match documents with
    | Some d => <[ "documents" := AStrs d ]> kwargs
    | None => kwargs
    end in
  let kwargs :=
    match metadatas with
    | Some m => <[ "metadatas" := AMetas m ]> kwargs
    | None => kwargs
    end in
  invoke (call_update col kwargs) (col_update eng col kwargs);;
  mret (length ids).

Definition delete_documents (collection_name : string) (ids : list string)
    : M E nat :=
  col ← get_collection collection_name;
  invoke (call_delete col ids) (col_delete eng col ids);;
  mret (length ids).

Definition modify_collection (collection_name : string)
    (new_name : option string) (new_metadata : option Metadata) : M E unit :=
  col ← get_collection collection_name;
  col ← match new_metadata with
        | Some _ =>
            invoke (call_modify col None new_metadata)
              (col_modify eng col None new_metadata)
        | None => mret col
        end;
  match new_name with
  | Some _ =>
      invoke (call_modify col new_name None)
        (col_modify eng col new_name None);;
      mret tt
  | None => mret tt
  end.

Definition delete_collection (collection_name : string) : M E unit :=
  client ← _client_or_raise;
  invoke (call_delete_collection collection_name)
    (client_delete_collection eng client collection_name).

Definition fork_collection (collection_name new_collection_name : string)
    (metadata : option Metadata) : M E unit :=
  client ← _client_or_raise;
  col ← invoke (call_get_collection collection_name)
          (client_get_collection eng client collection_name);
  data ← invoke (call_get col None (Some ["documents"; "metadatas"]))
           (col_get eng col None (Some ["documents"; "metadatas"]));
  try_except
    (invoke (call_delete_collection new_collection_name)
       (client_delete_collection eng client new_collection_name))
    (fun _ => mret tt);;
  new_col ← invoke
    (call_create_collection new_collection_name (Some (dict_or_empty metadata)))
    (client_create_collection eng client new_collection_name
       (Some (dict_or_empty metadata)));
  let ids := list_or (ids data) [] in
  match ids with
  | [] => mret tt
  | _ =>
      let documents := list_or (documents data) (replicate (length ids) "") in
      let metadatas := list_or (metadatas data) (replicate (length ids) ∅) in
      invoke (call_add new_col ids documents metadatas)
        (col_add eng new_col ids documents metadatas)
  end.

End Store.

(** ** An in-memory engine *)

Module MemEngine.

(** Modelled from the spec: the backing engine (the vector-database
    client and the directory it persists to), which the store calls but
    whose code is no part of the sources.  It keeps named collections of
    documents; a missing collection is a [CollectionNotFoundError];
    adding an id twice is a [DuplicateDocumentError]; sequences of unequal
    length are a [DimensionMismatchError]; updating an unknown id is a
    [DocumentNotFoundError]; deleting an unknown id does nothing; a client
    that cannot be constructed is an [EngineUnavailableError]; metadata is
    validated, and an empty dict, for a collection or for a document, is
    refused with a [ValueError].  A document stored without metadata
    carries the empty map.  Embeddings and similarity search are left
    out. *)
Record Document : Type := mkDocument {
  doc_id : string;
  doc_text : string;
  doc_metadata : Metadata
}.

(** Modelled from the spec: a collection as the engine keeps it, its handle
    (name, metadata) and its documents. *)
Record Stored : Type := mkStored {
  handle : Collection;
  docs : list Document
}.

(** Modelled from the spec: the state of the engine: the collections, in
    creation order; whether a client can be constructed; the working
    directory paths are resolved against. *)
Record Mem : Type := mkMem {
  collections : list Stored;
  available : bool;
  cwd : Path
}.

Definition CollectionNotFoundError : exn := Exn "CollectionNotFoundError".
Definition CollectionExistsError : exn := Exn "CollectionExistsError".
Definition DuplicateDocumentError : exn := Exn "DuplicateDocumentError".
Definition DimensionMismatchError : exn := Exn "DimensionMismatchError".
Definition DocumentNotFoundError : exn := Exn "DocumentNotFoundError".
Definition EngineUnavailableError : exn := Exn "EngineUnavailableError".
Definition TypeError : exn := Exn "TypeError".

Definition has_name (n : string) (s : Stored) : bool :=
  String.eqb (name (handle s)) n.

Definition has_id (i : nat) (s : Stored) : bool :=
  Nat.eqb (id (handle s)) i.

Definition fresh_id (cs : list Stored) : nat :=
  S (max_list (List.map (fun s => id (handle s)) cs)).

Definition set_collections (cs : list Stored) (e : Mem) : Mem :=
  {| collections := cs; available := available e; cwd := cwd e |}.

(** Apply [f] to the stored collection with identifier [i]. *)
Definition alter_id (f : Stored -> Stored) (i : nat) (cs : list Stored)
    : list Stored :=
  List.map (fun s => if has_id i s then f s else s) cs.

(** Modelled from the spec: parent directories are created on demand. *)
Definition mkdir (p : Path) (e : Mem) : result unit * Mem := (Ok tt, e).

(** Modelled from the spec: the path is resolved to absolute form. *)
Definition resolve (p : Path) (e : Mem) : Path :=
  if String.eqb (anchor p) ""
  then {| anchor := anchor (cwd e); tail := tail (cwd e) ++ tail p |}
  else p.

(** Modelled from the spec: constructing the client fails with an
    [EngineUnavailableError] when the engine cannot be opened. *)
Definition open_client (path : string) (e : Mem) : result Client * Mem :=
  if available e then (Ok (client_at path), e)
  else (Raise EngineUnavailableError, e).

(** Modelled from the spec: the handles of all collections. *)
Definition engine_list_collections (_ : Client) (e : Mem)
    : result (list Collection) * Mem :=
  (Ok (List.map handle (collections e)), e).

(** Modelled from the spec: an absent collection is a
    [CollectionNotFoundError]. *)
Definition engine_get_collection (_ : Client) (n : string) (e : Mem)
    : result Collection * Mem :=
  match List.find (has_name n) (collections e) with
  | Some s => (Ok (handle s), e)
  | None => (Raise CollectionNotFoundError, e)
  end.

(** Modelled from the spec: the metadata of a collection is validated
    when it is created: no metadata passes, an empty dict does not. *)
Definition empty_dict (md : option Metadata) : bool :=
  bool_decide (md = Some ∅).

(** Modelled from the spec: a collection is created empty, under an
    identifier no stored collection has. *)
Definition new_collection (n : string) (md : option Metadata) (e : Mem)
    : result Collection * Mem :=
  let h := {| id := fresh_id (collections e); name := n; metadata := md |} in
  (Ok h, set_collections (collections e ++ [{| handle := h; docs := [] |}]) e).

(** Modelled from the spec: create-or-get; never fails on an existing
    name; an empty metadata dict is a [ValueError]. *)
Definition engine_get_or_create_collection (_ : Client) (n : string)
    (md : option Metadata) (e : Mem) : result Collection * Mem :=
  if empty_dict md then (Raise ValueError, e)
  else
    match List.find (has_name n) (collections e) with
    | Some s => (Ok (handle s), e)
    | None => new_collection n md e
    end.

(** Modelled from the spec: creation proper; a taken name is refused, and
    an empty metadata dict is a [ValueError]. *)
Definition engine_create_collection (_ : Client) (n : string)
    (md : option Metadata) (e : Mem) : result Collection * Mem :=
  if empty_dict md then (Raise ValueError, e)
  else
    match List.find (has_name n) (collections e) with
    | Some _ => (Raise CollectionExistsError, e)
    | None => new_collection n md e
    end.

(** Modelled from the spec: deleting an absent collection is a
    [CollectionNotFoundError]. *)
Definition engine_delete_collection (_ : Client) (n : string) (e : Mem)
    : result unit * Mem :=
  match List.find (has_name n) (collections e) with
  | Some _ =>
      (Ok tt,
       set_collections
         (List.filter (fun s => negb (has_name n s)) (collections e)) e)
  | None => (Raise CollectionNotFoundError, e)
  end.

(** The fields the engine returns when [include] is not given. *)
Definition default_include : list string := ["metadatas"; "documents"].

(** Modelled from the spec: direct lookup, all documents or those whose id
    is listed, with the fields named by [include]. *)
Definition get (col : Collection) (ids include : option (list string))
    (e : Mem) : result GetResult * Mem :=
  match List.find (has_id (id col)) (collections e) with
  | None => (Raise CollectionNotFoundError, e)
  | Some s =>
      let include := default default_include include in
      let sel :=
        match ids with
        | None => docs s
        | Some l => List.filter (fun d => bool_decide (doc_id d ∈ l)) (docs s)
        end in
      (Ok {| ids := Some (List.map doc_id sel);
             documents :=
               if bool_decide ("documents" ∈ include)
               then Some (List.map doc_text sel) else None;
             metadatas :=
               if bool_decide ("metadatas" ∈ include)
               then Some (List.map doc_metadata sel) else None |}, e)
  end.

Fixpoint mk_docs (ids documents : list string) (metadatas : list Metadata)
    : list Document :=
  match ids, documents, metadatas with
  | i :: ids', d :: documents', m :: metadatas' =>
      {| doc_id := i; doc_text := d; doc_metadata := m |}
      :: mk_docs ids' documents' metadatas'
  | _, _, _ => []
  end.

(** Modelled from the spec: sequences of unequal length are a
    [DimensionMismatchError], an empty metadata dict among the metadatas a
    [ValueError], an id given twice or already stored a
    [DuplicateDocumentError]. *)
Definition add (col : Collection) (ids documents : list string)
    (metadatas : list Metadata) (e : Mem) : result unit * Mem :=
  match List.find (has_id (id col)) (collections e) with
  | None => (Raise CollectionNotFoundError, e)
  | Some s =>
      if negb ((length documents =? length ids)%nat
               && (length metadatas =? length ids)%nat)
      then (Raise DimensionMismatchError, e)
      else if existsb (fun m => bool_decide (m = ∅)) metadatas
      then (Raise ValueError, e)
      else if negb (bool_decide (NoDup ids))
              || existsb (fun i => bool_decide (i ∈ List.map doc_id (docs s))) ids
      then (Raise DuplicateDocumentError, e)
      else
        (Ok tt,
         set_collections
           (alter_id
              (fun s => {| handle := handle s;
                           docs := docs s ++ mk_docs ids documents metadatas |})
              (id col) (collections e)) e)
  end.

(** Overwrite, in one stored document, the fields supplied for its id. *)
Fixpoint overwrite (ids : list string) (documents : option (list string))
    (metadatas : option (list Metadata)) (d : Document) : Document :=
  match ids with
  | [] => d
  | i :: ids' =>
      if String.eqb i (doc_id d) then
        {| doc_id := doc_id d;
           doc_text := default (doc_text d) (documents ≫= head);
           doc_metadata := default (doc_metadata d) (metadatas ≫= head) |}
      else overwrite ids' (List.tl <$> documents) (List.tl <$> metadatas) d
  end.

(** Modelled from the spec: only the supplied fields overwrite; an id the
    collection lacks is a [DocumentNotFoundError]. *)
Definition update (col : Collection) (kwargs : gmap string Arg) (e : Mem)
    : result unit * Mem :=
  match List.find (has_id (id col)) (collections e) with
  | None => (Raise CollectionNotFoundError, e)
  | Some s =>
      match kwargs !! "ids" with
      | Some (AStrs ids) =>
          let documents :=
            match kwargs !! "documents" with
            | Some (AStrs l) => Some l
            | _ => None
            end in
          let metadatas :=
            match kwargs !! "metadatas" with
            | Some (AMetas l) => Some l
            | _ => None
            end in
          if negb (default true ((fun l => length l =? length ids)%nat <$> documents)
                   && default true ((fun l => length l =? length ids)%nat <$> metadatas))
          then (Raise DimensionMismatchError, e)
          else if negb (forallb
                          (fun i => bool_decide (i ∈ List.map doc_id (docs s))) ids)
          then (Raise DocumentNotFoundError, e)
          else
            (Ok tt,
             set_collections
               (alter_id
                  (fun s => {| handle := handle s;
                               docs := List.map (overwrite ids documents metadatas)
                                         (docs s) |})
                  (id col) (collections e)) e)
      | _ => (Raise TypeError, e)
      end
  end.

(** Modelled from the spec: the listed ids are removed; an id the
    collection lacks is passed over. *)
Definition delete (col : Collection) (ids : list string) (e : Mem)
    : result unit * Mem :=
  match List.find (has_id (id col)) (collections e) with
  | None => (Raise CollectionNotFoundError, e)
  | Some s =>
      (Ok tt,
       set_collections
         (alter_id
            (fun s => {| handle := handle s;
                         docs := List.filter
                                   (fun d => negb (bool_decide (doc_id d ∈ ids)))
                                   (docs s) |})
            (id col) (collections e)) e)
  end.

(** Modelled from the spec: the collection is renamed, or its metadata
    replaced; the handle is returned as the call leaves it. *)
Definition modify (col : Collection) (new_name : option string)
    (new_metadata : option Metadata) (e : Mem) : result Collection * Mem :=
  match List.find (has_id (id col)) (collections e) with
  | None => (Raise CollectionNotFoundError, e)
  | Some s =>
      let clash :=
        match new_name with
        | Some n =>
            negb (String.eqb n (name (handle s)))
            && bool_decide (is_Some (List.find (has_name n) (collections e)))
        | None => false
        end in
      if clash then (Raise CollectionExistsError, e)
      else
        let h := {| id := id (handle s);
                    name := default (name (handle s)) new_name;
                    metadata :=
                      match new_metadata with
                      | Some m => Some m
                      | None => metadata (handle s)
                      end |} in
        (Ok h,
         set_collections
           (alter_id (fun s => {| handle := h; docs := docs s |})
              (id col) (collections e)) e)
  end.

(** Modelled from the spec: the in-memory engine as an [Engine]. *)
Definition mem : Engine Mem :=
  {| os_mkdir := mkdir;
     os_resolve := resolve;
     PersistentClient := open_client;
     client_list_collections := engine_list_collections;
     client_get_or_create_collection := engine_get_or_create_collection;
     client_get_collection := engine_get_collection;
     client_create_collection := engine_create_collection;
     client_delete_collection := engine_delete_collection;
     col_get := get;
     col_add := add;
     col_update := update;
     col_delete := delete;
     col_modify := modify |}.

(** The documents stored under the name [n], if the name is taken. *)
Definition docs_of (n : string) (e : Mem) : option (list Document) :=
  docs <$> List.find (has_name n) (collections e).

Definition names (e : Mem) : list string :=
  List.map (fun s => name (handle s)) (collections e).

(** Identifiers name one collection each, and document ids are unique
    within a collection. *)
Definition wf (e : Mem) : Prop :=
  NoDup (List.map (fun s => id (handle s)) (collections e))
  /\ NoDup (names e)
  /\ Forall (fun s => NoDup (List.map doc_id (docs s))) (collections e).

End MemEngine.

(** ** Reading the classifiers: first match over the routing pairs *)

(** The triples (collection, mapping, directory) in the order the two
    nested loops visit them. *)
Definition routing_pairs (items : list (string * Mapping))
    : list (string * Mapping * string) :=
  flat_map (fun cm => List.map (fun d => (cm.1, cm.2, d)) (directories cm.2)) items.

(** A triple matches when its directory string begins the root-relative
    path string and its glob matches the base name of the file. *)
Definition pair_matches (file_path relative_path : Path)
    (p : string * Mapping * string) : bool :=
  startswith (str relative_path) p.2
  && fnmatchcase (pathlib.name file_path) (file_pattern p.1.2).

(** Every directory string named by the routing table. *)
Definition mapped_directories : list string :=
  List.map snd (routing_pairs COLLECTION_MAPPINGS).

(** [relative_path] lies in the directory [directory], component by
    component. *)
Definition in_directory (relative_path : Path) (directory : string) : bool :=
  is_relative_to relative_path (PurePath directory).

(** The error class of the specification's taxonomy for a path outside the
    root. *)
Definition PathOutsideRootError : exn := Exn "PathOutsideRootError".

(** Whether a logged call is a [col.modify] or a [col.add]. *)
Definition is_modify (c : Call) : bool :=
  match c with call_modify _ _ _ => true | _ => false end.

Definition is_add (c : Call) : bool :=
  match c with call_add _ _ _ _ => true | _ => false end.

(** The world after one more logged call that left the engine in [e]. *)
Definition logged {E} (w : World E) (c : Call) (e : E) : World E :=
  {| self := self w; engine := e; calls := calls w ++ [c] |}.

(** The store already holds a client, or the engine lets one be opened. *)
Definition client_ready (w : World MemEngine.Mem) : bool :=
  bool_decide (is_Some (_client (self w))) || MemEngine.available (engine w).

(** The required names absent from the engine: what [verify_collections]
    reports as missing. *)
Definition missing_in (e : MemEngine.Mem) : list string :=
  List.filter (fun n => negb (bool_decide (n ∈ MemEngine.names e)))
    REQUIRED_COLLECTIONS.

(** ** Sample states *)

Definition sample_metadata : Metadata := {[ "k" := SStr "v" ]}.

(** An engine holding two collections: features with two documents, uisi
    with none. *)
Definition sample_engine : MemEngine.Mem :=
  {| MemEngine.collections :=
       [ {| MemEngine.handle :=
              {| id := 1; name := "features"; metadata := None |};
            MemEngine.docs :=
              [ {| MemEngine.doc_id := "a"; MemEngine.doc_text := "login";
                   MemEngine.doc_metadata := sample_metadata |};
                {| MemEngine.doc_id := "b"; MemEngine.doc_text := "logout";
                   MemEngine.doc_metadata := ∅ |} ] |};
         {| MemEngine.handle :=
              {| id := 2; name := "uisi"; metadata := None |};
            MemEngine.docs := [] |} ];
     MemEngine.available := true;
     MemEngine.cwd := PurePath "/" |}.

(** A store for the root /p that has not opened its client yet. *)
Definition sample_world : World MemEngine.Mem :=
  {| self := get_context_store (PurePath "/p");
     engine := sample_engine;
     calls := [] |}.

(** The same store over an engine whose client cannot be constructed. *)
Definition offline_world : World MemEngine.Mem :=
  {| self := get_context_store (PurePath "/p");
     engine := {| MemEngine.collections := MemEngine.collections sample_engine;
                  MemEngine.available := false;
                  MemEngine.cwd := PurePath "/" |};
     calls := [] |}.

(** ** The remaining operations of the store *)

(** [l[offset:]]: a negative offset counts from the end. *)
Definition slice_from {A} (l : list A) (offset : Z) : list A :=
  if (0 <=? offset)%Z then drop (Z.to_nat offset) l
  else drop (Z.to_nat (Z.of_nat (length l) + offset)) l.

(** [l[:limit]]: a negative limit counts from the end. *)
Definition slice_to {A} (l : list A) (limit : Z) : list A :=
  if (0 <=? limit)%Z then take (Z.to_nat limit) l
  else take (Z.to_nat (Z.of_nat (length l) + limit)) l.

(** [metadata or None]: the empty dict is falsy. *)
Definition dict_or_None (x : option Metadata) : option Metadata :=
  match x with
  | None => None
  | Some m => if decide (m = ∅) then None else Some m
  end.

(** The dict [{"name": ..., "metadata": ...}] of [get_collection_info]. *)
Record CollectionInfo : Type := mkCollectionInfo {
  info_name : string;
  info_metadata : Metadata
}.

(** A keyword value of the read-side calls; filters are handed on as they
    come. *)
Inductive Kw (Filter : Type) : Type :=
  | KStrs (l : list string)
  | KInt (z : Z)
  | KFilter (f : Filter).
Arguments KStrs {Filter} l.
Arguments KInt {Filter} z.
Arguments KFilter {Filter} f.

(** An engine call that is not entered in the log. *)
Definition perform {E A} (op : E -> result A * E) : M E A :=
  fun w =>
    let '(r, e') := op (engine w) in
    (r, {| self := self w; engine := e'; calls := calls w |}).

Section StoreRest.
Context {E : Type}.
Variable eng : Engine E.

(** The loop of [initialize_collections] over the names still to do; the
    two console reports are left out, the handler re-raises. *)
Fixpoint initialize_each (client : Client) (names : list string) : M E unit :=
  match names with
  | [] => mret tt
  | collection_name :: names' =>
      try_except
        (invoke
           (call_get_or_create_collection collection_name
              (Some {[ "description" :=
                         SStr ("Collection for " ++ collection_name)%string ]}))
           (client_get_or_create_collection eng client collection_name
              (Some {[ "description" :=
                         SStr ("Collection for " ++ collection_name)%string ]}));;
         mret tt)
        (fun e => raise e);;
      initialize_each client names'
  end.

Definition initialize_collections (client : Client) : M E unit :=
  initialize_each client REQUIRED_COLLECTIONS.

Definition list_collections (limit offset : option Z) : M E (list string) :=
  client ← _client_or_raise eng;
  cols ← invoke call_list_collections (client_list_collections eng client);
  let names := List.map name cols in
  let names := match offset with
               | Some o => slice_from names o
               | None => names
               end in
  let names := match limit with
               | Some l => slice_to names l
               | None => names
               end in
  mret names.

Definition create_collection (collection_name : string)
    (metadata : option Metadata) : M E unit :=
  client ← _client_or_raise eng;
  invoke (call_get_or_create_collection collection_name (dict_or_None metadata))
    (client_get_or_create_collection eng client collection_name
       (dict_or_None metadata));;
  mret tt.

Definition get_collection_info (collection_name : string) : M E CollectionInfo :=
  col ← get_collection eng collection_name;
  mret {| info_name := name col;
          info_metadata := dict_or_empty (metadata col) |}.

Section ReadSide.
Context {Filter Bundle : Type}.
(** [col.get] and [col.query], called with the keyword dict unpacked *)
Variable col_get_kwargs :
  Collection -> gmap string (Kw Filter) -> E -> result GetResult * E.
Variable col_query :
  Collection -> gmap string (Kw Filter) -> E -> result Bundle * E.

(** [kwargs[key] = value] when the value is given *)
Definition set_if_given (key : string) (value : option (Kw Filter))
    (kwargs : gmap string (Kw Filter)) : gmap string (Kw Filter) :=
  match value with
  | Some v => <[ key := v ]> kwargs
  | None => kwargs
  end.

Definition query_documents (collection_name : string)
    (query_texts : list string) (n_results : Z)
    (where_ where_document : option Filter) (include : option (list string))
    : M E Bundle :=
  col ← get_collection eng collection_name;
  let include := list_or include ["documents"; "metadatas"; "distances"] in
  let kwargs : gmap string (Kw Filter) :=
    <[ "include" := KStrs include ]>
      (<[ "n_results" := KInt n_results ]>
         {[ "query_texts" := KStrs query_texts ]}) in
  let kwargs := set_if_given "where" (KFilter <$> where_) kwargs in
  let kwargs := set_if_given "where_document" (KFilter <$> where_document) kwargs in
  perform (col_query col kwargs).

Definition get_documents (collection_name : string)
    (ids : option (list string)) (where_ where_document : option Filter)
    (limit offset : option Z) (include : option (list string))
    : M E GetResult :=
  col ← get_collection eng collection_name;
  let include := list_or include ["documents"; "metadatas"] in
  let kwargs : gmap string (Kw Filter) := {[ "include" := KStrs include ]} in
  let kwargs := set_if_given "ids" (KStrs <$> ids) kwargs in
  let kwargs := set_if_given "where" (KFilter <$> where_) kwargs in
  let kwargs := set_if_given "where_document" (KFilter <$> where_document) kwargs in
  let kwargs := set_if_given "limit" (KInt <$> limit) kwargs in
  let kwargs := set_if_given "offset" (KInt <$> offset) kwargs in
  perform (col_get_kwargs col kwargs).

End ReadSide.
End StoreRest.

(** Modelled from the spec: the engine's direct lookup by keyword, over the
    in-memory engine.  A filter is the predicate it denotes on a stored
    document; [ids], [where] and [where_document] select, then [offset] and
    [limit] cut, and [include] names the fields returned. *)
Definition mem_get_kwargs (col : Collection)
    (kwargs : gmap string (Kw (MemEngine.Document -> bool)))
    (e : MemEngine.Mem) : result GetResult * MemEngine.Mem :=
  match List.find (MemEngine.has_id (id col)) (MemEngine.collections e) with
  | None => (Raise MemEngine.CollectionNotFoundError, e)
  | Some s =>
      let by_ids :=
        match kwargs !! "ids" with
        | Some (KStrs l) =>
            List.filter (fun d => bool_decide (MemEngine.doc_id d ∈ l))
        | _ => fun ds => ds
        end in
      let by_filter key :=
        match kwargs !! key with
        | Some (KFilter p) => List.filter p
        | _ => fun ds : list MemEngine.Document => ds
        end in
      let cut_offset :=
        match kwargs !! "offset" with
        | Some (KInt o) => drop (Z.to_nat o)
        | _ => fun ds : list MemEngine.Document => ds
        end in
      let cut_limit :=
        match kwargs !! "limit" with
        | Some (KInt l) => take (Z.to_nat l)
        | _ => fun ds : list MemEngine.Document => ds
        end in
      let include :=
        match kwargs !! "include" with
        | Some (KStrs l) => l
        | _ => MemEngine.default_include
        end in
      let sel :=
        cut_limit (cut_offset
          (by_filter "where_document" (by_filter "where"
             (by_ids (MemEngine.docs s))))) in
      (Ok {| ids := Some (List.map MemEngine.doc_id sel);
             documents :=
               if bool_decide ("documents" ∈ include)
               then Some (List.map MemEngine.doc_text sel) else None;
             metadatas :=
               if bool_decide ("metadatas" ∈ include)
               then Some (List.map MemEngine.doc_metadata sel) else None |}, e)
  end.

(** The call [initialize_collections] issues for one collection name. *)
Definition initialize_call (collection_name : string) : Call :=
  call_get_or_create_collection collection_name
    (Some {[ "description" :=
               SStr ("Collection for " ++ collection_name)%string ]}).

(** * Properties *)

(** ** Paths *)

Lemma rev_parts_name (p : Path) :
  tail p <> [] -> exists l, rev (parts p) = pathlib.name p :: l.
Proof.
  intros Hne. unfold parts, pathlib.name.
  destruct (tail p) as [|x l] using rev_ind; [done|].
  rewrite List.last_last.
  destruct (String.eqb (anchor p) "").
  - rewrite rev_unit. eauto.
  - rewrite app_comm_cons, rev_unit. eauto.
Qed.

(** A relative pattern of one component is matched against the base name. *)
Lemma match_one_component (file_path : Path) (pat : string) :
  tail file_path <> [] ->
  PurePath pat = {| anchor := ""; tail := [pat] |} ->
  match_ file_path pat = Ok (fnmatchcase (pathlib.name file_path) pat).
Proof.
  intros Hne Hpat. unfold match_. rewrite Hpat.
  destruct (rev_parts_name _ Hne) as [l Hl].
  assert (Hlen : (length (parts file_path) <? 1)%nat = false).
  { apply Nat.ltb_ge. rewrite <- (length_rev (parts file_path)), Hl. simpl. lia. }
  change (parts {| anchor := ""; tail := [pat] |}) with [pat].
  change (anchor {| anchor := ""; tail := [pat] |}) with "".
  change (negb ("" =? "")) with false. cbn iota.
  change (length [pat]) with 1. rewrite Hlen, Hl. cbn.
  destruct l; by rewrite andb_true_r.
Qed.

Lemma relative_to_Ok (file_path project_root rel : Path) :
  relative_to file_path project_root = Ok rel ->
  is_relative_to file_path project_root = true
  /\ rel = {| anchor := ""; tail := drop (length (tail project_root)) (tail file_path) |}.
Proof.
  unfold relative_to. destruct (is_relative_to _ _); [|done].
  intros [= <-]. done.
Qed.

Lemma relative_to_Raise (file_path project_root : Path) :
  is_relative_to file_path project_root = false ->
  relative_to file_path project_root = Raise ValueError.
Proof. unfold relative_to. by intros ->. Qed.

(** The relative path of a file without components prints as ["."], which
    no mapped directory begins. *)
Lemma str_relative_empty (file_path project_root rel : Path) :
  relative_to file_path project_root = Ok rel ->
  tail file_path = [] -> str rel = ".".
Proof.
  intros [_ ->]%relative_to_Ok Hnil. rewrite Hnil, drop_nil. reflexivity.
Qed.

(** ** The classifiers *)

Ltac case_bools :=
  repeat match goal with
    | |- context [startswith ?s ?d] => destruct (startswith s d)
    | |- context [fnmatchcase ?n ?p] => destruct (fnmatchcase n p)
    end.

(** Both loops return what the first matching routing pair selects. *)
Lemma scan_mappings_first_match {A} (pick : string -> Mapping -> A)
    (file_path project_root rel : Path) :
  relative_to file_path project_root = Ok rel ->
  scan_mappings pick file_path rel COLLECTION_MAPPINGS
  = Ok (option_map (fun p => pick p.1.1 p.1.2)
          (List.find (pair_matches file_path rel)
             (routing_pairs COLLECTION_MAPPINGS))).
Proof.
  intros Hrel.
  destruct (decide (tail file_path = [])) as [Hnil|Hne].
  - unfold pair_matches. cbn -[match_ startswith fnmatchcase str].
    rewrite (str_relative_empty _ _ _ Hrel Hnil). reflexivity.
  - unfold pair_matches. cbn -[match_ startswith fnmatchcase str].
    rewrite !(match_one_component file_path) by done.
    cbn -[match_ startswith fnmatchcase str].
    case_bools; reflexivity.
Qed.

Lemma get_collection_for_file_find (file_path project_root rel : Path) :
  relative_to file_path project_root = Ok rel ->
  get_collection_for_file file_path project_root
  = Ok (option_map (fun p => p.1.1)
          (List.find (pair_matches file_path rel)
             (routing_pairs COLLECTION_MAPPINGS))).
Proof.
  intros Hrel. unfold get_collection_for_file. rewrite Hrel.
  exact (scan_mappings_first_match (fun c _ => c) _ _ _ Hrel).
Qed.

Lemma get_file_type_find (file_path project_root rel : Path) :
  relative_to file_path project_root = Ok rel ->
  get_file_type file_path project_root
  = Ok (option_map (fun p => type p.1.2)
          (List.find (pair_matches file_path rel)
             (routing_pairs COLLECTION_MAPPINGS))).
Proof.
  intros Hrel. unfold get_file_type. rewrite Hrel.
  exact (scan_mappings_first_match (fun _ m => type m) _ _ _ Hrel).
Qed.

Lemma elem_of_List_filter {A} (f : A -> bool) (l : list A) (x : A) :
  x ∈ List.filter f l <-> x ∈ l /\ f x = true.
Proof. rewrite !list_elem_of_In. apply filter_In. Qed.

Lemma List_filter_none {A} (f : A -> bool) (l : list A) :
  (forall x, x ∈ l -> f x = false) -> List.filter f l = [].
Proof.
  induction l as [|x l IH]; [done|]. intros H. simpl.
  rewrite (H x) by apply list_elem_of_here.
  apply IH. intros y Hy. apply H. by apply list_elem_of_further.
Qed.

Lemma find_none_all_false {A} (f : A -> bool) (l : list A) :
  (forall x, x ∈ l -> f x = false) -> List.find f l = None.
Proof.
  induction l as [|x l IH]; [done|]. intros H. simpl.
  rewrite (H x) by apply list_elem_of_here.
  apply IH. intros y Hy. apply H. by apply list_elem_of_further.
Qed.

(** What [get_collection_for_file] computes as it is written: for a file
    under the project root, the collection of the first routing pair,
    mappings in table order and directories in declared order, whose
    directory string begins the root-relative path string and whose glob
    matches the base name, and [None] when no pair matches.  With root /p,
    /p/docs/adrs/0001-x.md classifies to business-and-architecture and
    /p/README.md to [None]. *)
Lemma get_collection_for_file_first_match
    (file_path project_root rel : Path) :
  relative_to file_path project_root = Ok rel ->
  get_collection_for_file file_path project_root
  = Ok (option_map (fun p => p.1.1)
          (List.find (pair_matches file_path rel)
             (routing_pairs COLLECTION_MAPPINGS)))
  /\ ((forall d, d ∈ mapped_directories -> startswith (str rel) d = false) ->
      get_collection_for_file file_path project_root = Ok None)
  /\ get_collection_for_file (PurePath "/p/docs/adrs/0001-x.md") (PurePath "/p")
     = Ok (Some "business-and-architecture")
  /\ get_collection_for_file (PurePath "/p/README.md") (PurePath "/p") = Ok None.
Proof.
  intros Hrel. split; [by apply get_collection_for_file_find|].
  split; [|split; reflexivity].
  intros Hnone. rewrite (get_collection_for_file_find _ _ _ Hrel).
  rewrite find_none_all_false; [done|].
  intros [[c m] d] Hin. unfold pair_matches. cbn [snd].
  rewrite Hnone; [done|].
  unfold mapped_directories. apply list_elem_of_In, in_map_iff.
  exists (c, m, d). split; [done|]. by apply list_elem_of_In.
Qed.

Lemma get_collection_for_file_first_match_witness :
  relative_to (PurePath "/p/docs/features/login.feature") (PurePath "/p")
  = Ok (PurePath "docs/features/login.feature")
  /\ get_collection_for_file (PurePath "/p/docs/features/login.feature")
       (PurePath "/p")
     = Ok (Some "features").
Proof.
  split; [reflexivity|].
  destruct (get_collection_for_file_first_match
              (PurePath "/p/docs/features/login.feature") (PurePath "/p")
              (PurePath "docs/features/login.feature") eq_refl) as [H _].
  rewrite H. reflexivity.
Defined.

(** C1: the directory test misses the separator.  With root /p, the files
    /p/docs/adrs-old/x.md and /p/docs/adrs.md lie in no mapped directory,
    yet neither classifies to [None]: each is routed to
    business-and-architecture, because its relative string begins with
    docs/adrs.  A sibling directory whose name does not begin with a mapped
    one, as in /p/docs/old-adrs/x.md, is unrouted as the claim says. *)
Theorem get_collection_for_file_sibling_directory :
  (exists rel,
     relative_to (PurePath "/p/docs/adrs-old/x.md") (PurePath "/p") = Ok rel
     /\ forallb (fun d => negb (in_directory rel d)) mapped_directories = true
     /\ get_collection_for_file (PurePath "/p/docs/adrs-old/x.md")
          (PurePath "/p")
        = Ok (Some "business-and-architecture"))
  /\ (exists rel,
        relative_to (PurePath "/p/docs/adrs.md") (PurePath "/p") = Ok rel
        /\ forallb (fun d => negb (in_directory rel d)) mapped_directories
           = true
        /\ get_collection_for_file (PurePath "/p/docs/adrs.md") (PurePath "/p")
           = Ok (Some "business-and-architecture"))
  /\ get_collection_for_file (PurePath "/p/docs/old-adrs/x.md") (PurePath "/p")
     = Ok None.
Proof.
  split; [|split]; [eexists; repeat split; reflexivity..|reflexivity].
Qed.

(** C5 (as amended): for a file path that does not lie under the project
    root, both classifiers fail with the [ValueError] of [relative_to]; they
    return no result. *)
Theorem classifiers_outside_root_ValueError (file_path project_root : Path) :
  is_relative_to file_path project_root = false ->
  get_collection_for_file file_path project_root = Raise ValueError
  /\ get_file_type file_path project_root = Raise ValueError.
Proof.
  intros Hout%relative_to_Raise.
  unfold get_collection_for_file, get_file_type. by rewrite Hout.
Qed.

Lemma classifiers_outside_root_ValueError_witness :
  is_relative_to (PurePath "/elsewhere/docs/adrs/a.md") (PurePath "/p") = false
  /\ get_collection_for_file (PurePath "/elsewhere/docs/adrs/a.md") (PurePath "/p")
     = Raise ValueError
  /\ get_file_type (PurePath "/elsewhere/docs/adrs/a.md") (PurePath "/p")
     = Raise ValueError.
Proof.
  split; [reflexivity|].
  apply (classifiers_outside_root_ValueError
           (PurePath "/elsewhere/docs/adrs/a.md") (PurePath "/p")).
  reflexivity.
Defined.

(** C5, the claim as stated fails: /q/x.md is outside the root /p, and
    neither classifier fails with a [PathOutsideRootError]. *)
Lemma classifiers_outside_root_not_PathOutsideRootError :
  is_relative_to (PurePath "/q/x.md") (PurePath "/p") = false
  /\ get_collection_for_file (PurePath "/q/x.md") (PurePath "/p")
     <> Raise PathOutsideRootError
  /\ get_file_type (PurePath "/q/x.md") (PurePath "/p")
     <> Raise PathOutsideRootError.
Proof. repeat split; discriminate. Qed.

(** C8: [get_file_type] and [get_collection_for_file] decide by the same
    rule: on every path, the one returns the type of a mapping of the table
    exactly when the other returns that mapping's collection name, and the
    one returns [None] exactly when the other does. *)
Theorem get_file_type_same_rule (file_path project_root : Path) :
  (forall c m, (c, m) ∈ COLLECTION_MAPPINGS ->
     get_file_type file_path project_root = Ok (Some (type m))
     <-> get_collection_for_file file_path project_root = Ok (Some c))
  /\ (get_file_type file_path project_root = Ok None
      <-> get_collection_for_file file_path project_root = Ok None).
Proof.
  destruct (relative_to file_path project_root) as [rel|e] eqn:Hrel.
  - rewrite (get_file_type_find _ _ _ Hrel),
      (get_collection_for_file_find _ _ _ Hrel).
    destruct (List.find _ _) as [[[c' m'] d]|] eqn:Hfind.
    + apply find_some in Hfind as [Hin _]. cbn [option_map fst snd]. split.
      * intros c m Hcm.
        apply list_elem_of_In in Hcm. cbn in Hin, Hcm.
        intuition (simplify_eq; cbn; split; done || discriminate).
      * split; discriminate.
    + cbn. split; [|done]. intros; split; discriminate.
  - unfold get_file_type, get_collection_for_file. rewrite Hrel. cbn.
    split; [intros|]; split; discriminate.
Qed.

(** ** The store, over any engine *)

Section AnyEngine.
Context {E : Type}.
Variable eng : Engine E.

Lemma bind_eq {A B} (m : M E A) (f : A -> M E B) (w : World E) :
  (m ≫= f) w
  = match m w with
    | (Ok a, w') => f a w'
    | (Raise e, w') => (Raise e, w')
    end.
Proof. reflexivity. Qed.

Lemma invoke_eq {A} (c : Call) (op : E -> result A * E) (w : World E) :
  invoke c op w = ((op (engine w)).1, logged w c (op (engine w)).2).
Proof. unfold invoke, logged. by destruct (op (engine w)). Qed.

(** When the client cannot be had, there is no handle either. *)
Lemma get_collection_client_Raise (collection_name : string) (w w1 : World E) e :
  _client_or_raise eng w = (Raise e, w1) ->
  get_collection eng collection_name w = (Raise e, w1).
Proof. intros H. unfold get_collection. by rewrite bind_eq, H. Qed.

(** C6: [document_exists] never raises.  Whatever the engine and the
    state, it returns a boolean; the boolean is [true] exactly when the
    handle was obtained and the engine lookup for the id returned a
    non-empty id list; a failure to construct the client or to find the
    collection gives [false]. *)
Theorem document_exists_never_raises
    (collection_name document_id : string) (w : World E) :
  exists (b : bool) (w' : World E),
    document_exists eng collection_name document_id w = (Ok b, w')
    /\ (b = true <->
        exists col w1 existing e2 l,
          get_collection eng collection_name w = (Ok col, w1)
          /\ col_get eng col (Some [document_id]) None (engine w1)
             = (Ok existing, e2)
          /\ ids existing = Some l /\ l <> [])
    /\ (forall e w1, _client_or_raise eng w = (Raise e, w1) -> b = false)
    /\ (forall e w1,
          get_collection eng collection_name w = (Raise e, w1) -> b = false).
Proof.
  unfold document_exists, try_except. rewrite bind_eq.
  destruct (get_collection eng collection_name w) as [[col|e] w1] eqn:Hcol.
  - rewrite bind_eq, invoke_eq.
    destruct (col_get eng col (Some [document_id]) None (engine w1))
      as [[existing|e] e2] eqn:Hget; cbn [fst snd].
    + destruct (ids existing) as [l|] eqn:Hids.
      * eexists _, _. split; [reflexivity|]. split; [|split].
        -- split.
           ++ intros Hpos%Nat.ltb_lt.
              exists col, w1, existing, e2, l. repeat split; try done.
              intros ->. simpl in Hpos. lia.
           ++ intros (col' & w1' & ex' & e2' & l' & [= <- <-] & Hget' & Hids' & Hne).
              rewrite Hget in Hget'. simplify_eq.
              match goal with H : ?x <> [] |- _ => by destruct x end.
        -- intros e w1' Hc%(get_collection_client_Raise collection_name).
           congruence.
        -- intros; congruence.
      * eexists _, _. split; [reflexivity|]. split; [|split].
        -- split; [done|].
           intros (col' & w1' & ex' & e2' & l' & [= <- <-] & Hget' & Hids' & Hne).
           rewrite Hget in Hget'. simplify_eq.
        -- done.
        -- done.
    + eexists _, _. split; [reflexivity|]. split; [|split]; try done.
      split; [done|].
      intros (col' & w1' & ex' & e2' & l' & [= <- <-] & Hget' & _).
      rewrite Hget in Hget'. simplify_eq.
  - eexists _, _. split; [reflexivity|]. split; [|split]; try done.
    split; [done|]. intros (col' & w1' & ? & ? & ? & [=] & _).
Qed.


(** C10: [update_documents] validates nothing: the keyword arguments it
    hands to the engine's update are the ids and exactly those of
    documents and metadatas that were supplied (the ids alone when
    neither was), and, the update done, it returns the number of ids. *)
Theorem update_documents_forwards
    (collection_name : string) (ids : list string)
    (documents : option (list string))
    (metadatas : option (list Metadata)) (w : World E) :
  exists kwargs : gmap string Arg,
    kwargs !! "ids" = Some (AStrs ids)
    /\ kwargs !! "documents" = AStrs <$> documents
    /\ kwargs !! "metadatas" = AMetas <$> metadatas
    /\ (forall k, k <> "ids" -> k <> "documents" -> k <> "metadatas" ->
          kwargs !! k = None)
    /\ update_documents eng collection_name ids documents metadatas w
       = match get_collection eng collection_name w with
         | (Raise e, w1) => (Raise e, w1)
         | (Ok col, w1) =>
             match col_update eng col kwargs (engine w1) with
             | (Ok _, e2) =>
                 (Ok (length ids), logged w1 (call_update col kwargs) e2)
             | (Raise e, e2) =>
                 (Raise e, logged w1 (call_update col kwargs) e2)
             end
         end.
Proof.
  unfold update_documents.
  set (kwargs :=
    match metadatas with
    | Some m =>
        <["metadatas" := AMetas m]>
          (match documents with
           | Some d => <["documents" := AStrs d]> {["ids" := AStrs ids]}
           | None => {["ids" := AStrs ids]}
           end)
    | None =>
        match documents with
        | Some d => <["documents" := AStrs d]> {["ids" := AStrs ids]}
        | None => ({["ids" := AStrs ids]} : gmap string Arg)
        end
    end).
  exists kwargs. split; [|split; [|split; [|split]]].
  - by destruct documents, metadatas.
  - by destruct documents, metadatas.
  - by destruct documents, metadatas.
  - intros k H1 H2 H3. subst kwargs.
    destruct documents, metadatas;
      rewrite ?lookup_insert_ne, ?lookup_singleton_ne by done; done.
  - rewrite bind_eq.
    destruct (get_collection eng collection_name w) as [[col|e] w1]; [|done].
    subst kwargs.
    destruct documents, metadatas; cbn zeta; rewrite bind_eq, invoke_eq;
      match goal with
      | |- context [col_update eng col ?k (engine w1)] =>
          by destruct (col_update eng col k (engine w1)) as [[[]|e] e2]
      end.
Qed.

(** The calls made to obtain the client are neither a modify nor an add. *)
Lemma _client_or_raise_calls (w : World E) :
  exists delta,
    calls (_client_or_raise eng w).2 = calls w ++ delta
    /\ List.filter is_modify delta = []
    /\ List.filter is_add delta = [].
Proof.
  unfold _client_or_raise, get_self. rewrite bind_eq.
  destruct (_client (self w)).
  { exists []. by rewrite app_nil_r. }
  unfold get_chromadb_client, try_except, set_client, raise.
  rewrite !bind_eq, invoke_eq.
  destruct (os_mkdir eng _ (engine w)) as [[[]|e] e1]; cbn [fst snd].
  - rewrite bind_eq, invoke_eq. cbn [logged engine].
    destruct (PersistentClient eng _ e1) as [[c|e] e2];
      unfold mbind, M_bind, mret, M_ret; cbn;
      rewrite <- app_assoc; by eexists.
  - by eexists.
Qed.

Lemma get_collection_calls (collection_name : string) (w : World E) :
  exists delta,
    calls (get_collection eng collection_name w).2 = calls w ++ delta
    /\ List.filter is_modify delta = []
    /\ List.filter is_add delta = [].
Proof.
  unfold get_collection. rewrite bind_eq.
  destruct (_client_or_raise_calls w) as (d & Hd & Hm & Ha).
  destruct (_client_or_raise eng w) as [[c|e] w1]; cbn [snd] in *.
  - rewrite invoke_eq. cbn. rewrite Hd, <- app_assoc.
    eexists. split; [done|]. by rewrite !List.filter_app, Hm, Ha.
  - eauto.
Qed.

(** With both a new name and new metadata, the modify calls that
    [modify_collection] issues are a prefix of the sequence metadata
    change, rename, and they are the whole sequence when it returns. *)
Lemma modify_collection_modify_calls
    (collection_name new_name : string) (new_metadata : Metadata)
    (w : World E) :
  let out :=
    modify_collection eng collection_name (Some new_name) (Some new_metadata) w in
  exists delta,
    calls out.2 = calls w ++ delta
    /\ (List.filter is_modify delta = []
        \/ (exists col,
              List.filter is_modify delta
              = [call_modify col None (Some new_metadata)])
        \/ (exists col col',
              List.filter is_modify delta
              = [call_modify col None (Some new_metadata);
                 call_modify col' (Some new_name) None]))
    /\ (forall r, out.1 = Ok r ->
          exists col col',
            List.filter is_modify delta
            = [call_modify col None (Some new_metadata);
               call_modify col' (Some new_name) None]).
Proof.
  cbn zeta. unfold modify_collection. rewrite bind_eq.
  destruct (get_collection_calls collection_name w) as (d & Hd & Hm & _).
  destruct (get_collection eng collection_name w) as [[col|e] w1];
    cbn [fst snd] in *.
  - rewrite bind_eq, invoke_eq.
    destruct (col_modify eng col None (Some new_metadata) (engine w1))
      as [[col'|e] e2]; cbn [fst snd].
    + rewrite bind_eq, invoke_eq. cbn [logged engine calls self].
      destruct (col_modify eng col' (Some new_name) None e2)
        as [[col''|e] e3]; unfold mbind, M_bind, mret, M_ret;
        cbn [fst snd logged engine calls self];
        rewrite Hd, <- !app_assoc;
        (eexists; split; [reflexivity|]);
        rewrite List.filter_app, Hm; cbn; eauto 10.
    + cbn. rewrite Hd, <- !app_assoc.
      eexists; split; [reflexivity|].
      rewrite List.filter_app, Hm. cbn. split; [eauto|done].
  - exists d. split; [done|]. split; [by left|done].
Qed.


(** C9: with both a new name and new metadata, [modify_collection] looks
    the collection up by the name given, applies the metadata change to the
    handle the engine answered, on the engine state the lookup left, and
    then applies the rename on the state the metadata change left; a
    failure of a step ends the call with that step's exception, the later
    steps not attempted.  In the call log the metadata change comes before
    the rename, never the reverse. *)
Theorem modify_collection_metadata_then_name
    (collection_name new_name : string) (new_metadata : Metadata)
    (w : World E) :
  let out :=
    modify_collection eng collection_name (Some new_name) (Some new_metadata) w in
  match _client_or_raise eng w with
  | (Raise e, w0) => out = (Raise e, w0)
  | (Ok client, w0) =>
      let got := client_get_collection eng client collection_name (engine w0) in
      let w1 := logged w0 (call_get_collection collection_name) got.2 in
      match got.1 with
      | Raise e => out = (Raise e, w1)
      | Ok col =>
          let first := col_modify eng col None (Some new_metadata) got.2 in
          let w2 := logged w1 (call_modify col None (Some new_metadata))
                      first.2 in
          match first.1 with
          | Raise e => out = (Raise e, w2)
          | Ok col' =>
              let second := col_modify eng col' (Some new_name) None first.2 in
              let w3 := logged w2 (call_modify col' (Some new_name) None)
                          second.2 in
              out = (match second.1 with
                     | Ok _ => Ok tt
                     | Raise e => Raise e
                     end, w3)
          end
      end
  end
  /\ exists delta,
       calls out.2 = calls w ++ delta
       /\ (List.filter is_modify delta = []
           \/ (exists col,
                 List.filter is_modify delta
                 = [call_modify col None (Some new_metadata)])
           \/ (exists col col',
                 List.filter is_modify delta
                 = [call_modify col None (Some new_metadata);
                    call_modify col' (Some new_name) None]))
       /\ (forall r, out.1 = Ok r ->
             exists col col',
               List.filter is_modify delta
               = [call_modify col None (Some new_metadata);
                  call_modify col' (Some new_name) None]).
Proof.
  cbn zeta. split; [|exact (modify_collection_modify_calls _ _ _ w)].
  unfold modify_collection, get_collection. rewrite !bind_eq.
  destruct (_client_or_raise eng w) as [[client|e] w0]; [|done].
  rewrite invoke_eq.
  destruct (client_get_collection eng client collection_name (engine w0))
    as [[col|e] e1]; cbn [fst snd]; [|done].
  rewrite bind_eq, invoke_eq. cbn [logged engine].
  destruct (col_modify eng col None (Some new_metadata) e1)
    as [[col'|e] e2]; cbn [fst snd]; [|done].
  rewrite bind_eq, invoke_eq. cbn [logged engine].
  by destruct (col_modify eng col' (Some new_name) None e2) as [[col''|e] e3].
Qed.

End AnyEngine.

(** ** The store, over the in-memory engine *)

Section InMemory.
Import MemEngine.

Lemma client_ready_Ok (w : World Mem) :
  client_ready w = true ->
  exists c w1 delta,
    _client_or_raise mem w = (Ok c, w1)
    /\ engine w1 = engine w
    /\ _client (self w1) = Some c
    /\ calls w1 = calls w ++ delta
    /\ List.filter is_add delta = [].
Proof.
  unfold client_ready. intros Hready.
  unfold _client_or_raise, get_self. rewrite bind_eq.
  destruct (_client (self w)) as [c|] eqn:Hc.
  - exists c, w, []. by rewrite Hc, app_nil_r.
  - cbn in Hready.
    unfold get_chromadb_client, try_except, set_client, raise.
    rewrite !bind_eq, invoke_eq. cbn [mem os_mkdir mkdir fst snd].
    rewrite bind_eq, invoke_eq.
    cbn [mem PersistentClient logged engine].
    unfold open_client. rewrite Hready. cbn [fst snd].
    unfold mbind, M_bind, mret, M_ret. cbn.
    eexists _, _, _. rewrite <- app_assoc. repeat split; done.
Qed.

Lemma find_has_name (n : string) (cs : list Stored) (s : Stored) :
  List.find (has_name n) cs = Some s -> s ∈ cs /\ name (handle s) = n.
Proof.
  intros [Hin Hn]%find_some. split; [by apply list_elem_of_In|].
  by apply String.eqb_eq.
Qed.

Lemma names_list_collections (e : Mem) :
  List.map name (List.map handle (collections e)) = names e.
Proof. unfold names. by rewrite List.map_map. Qed.

Lemma empty_dict_false (md : option Metadata) :
  md <> Some ∅ -> empty_dict md = false.
Proof. intros Hmd. by apply bool_decide_eq_false. Qed.

(** Given no metadata or a non-empty dict, [get_or_create_collection]
    answers, and afterwards the name is taken; no other name appears or
    disappears. *)
Lemma get_or_create_names (c : Client) (n : string) (md : option Metadata)
    (e : Mem) :
  md <> Some ∅ ->
  exists h e',
    engine_get_or_create_collection c n md e = (Ok h, e')
    /\ forall x, x ∈ names e' <-> x ∈ names e \/ x = n.
Proof.
  intros Hmd%empty_dict_false.
  unfold engine_get_or_create_collection. rewrite Hmd.
  destruct (List.find (has_name n) (collections e)) as [s|] eqn:Hfind.
  - exists (handle s), e. split; [done|]. intros x. split; [by left|].
    intros [?| ->]; [done|]. apply find_has_name in Hfind as [Hin <-].
    unfold names.
    apply list_elem_of_In, (in_map (fun s => name (handle s))), list_elem_of_In, Hin.
  - eexists _, _. split; [reflexivity|]. intros x.
    unfold names. cbn. rewrite List.map_app, elem_of_app. cbn.
    by rewrite list_elem_of_singleton.
Qed.

Lemma create_each_names (c : Client) (l : list string) (w : World Mem) :
  exists w',
    create_each mem c l w = (Ok tt, w')
    /\ self w' = self w
    /\ forall x, x ∈ names (engine w') <-> x ∈ names (engine w) \/ x ∈ l.
Proof.
  revert w. induction l as [|n l IH]; intros w.
  - exists w. split; [done|]. split; [done|]. intros x.
    rewrite elem_of_nil. tauto.
  - cbn [create_each]. rewrite bind_eq, invoke_eq.
    cbn [mem client_get_or_create_collection].
    destruct (get_or_create_names c n None (engine w) ltac:(done))
      as (h & e' & -> & Hn).
    cbn [fst snd].
    destruct (IH (logged w (call_get_or_create_collection n None) e'))
      as (w' & -> & Hself & Hnames).
    exists w'. split; [done|]. split; [done|]. intros x.
    rewrite Hnames. cbn [logged engine]. rewrite Hn, elem_of_cons.
    tauto.
Qed.

Lemma ensure_collections_run (w : World Mem) :
  client_ready w = true ->
  exists w',
    ensure_collections mem w = (Ok (missing_in (engine w)), w')
    /\ client_ready w' = true
    /\ forall n,
         n ∈ names (engine w') <->
         n ∈ names (engine w) \/ n ∈ REQUIRED_COLLECTIONS.
Proof.
  intros (c & w1 & d & Hc & He & Hs & _)%client_ready_Ok.
  unfold ensure_collections, verify_collections.
  rewrite bind_eq, Hc, !bind_eq, invoke_eq.
  cbn [mem client_list_collections engine_list_collections fst snd].
  unfold mret at 1, M_ret at 1. rewrite names_list_collections, He.
  fold (missing_in (engine w)). rewrite bind_eq.
  destruct (create_each_names c (missing_in (engine w))
              (logged w1 call_list_collections (engine w)))
    as (w' & -> & Hself & Hnames).
  exists w'. split; [done|]. split.
  - unfold client_ready. rewrite Hself. cbn [logged self]. rewrite Hs.
    rewrite bool_decide_eq_true_2; [done|by eexists].
  - intros n. rewrite Hnames. cbn [logged engine].
    unfold missing_in. rewrite elem_of_List_filter.
    rewrite negb_true_iff, bool_decide_eq_false.
    destruct (decide (n ∈ names (engine w))); tauto.
Qed.

(** C7: over the in-memory engine, [ensure_collections] returns exactly
    the required names absent beforehand, leaves every required name
    present and adds no other, and a second call right after returns the
    empty list. *)
Theorem ensure_collections_idempotent (w : World Mem) :
  client_ready w = true ->
  exists w' w'',
    ensure_collections mem w
    = (Ok (List.filter (fun n => negb (bool_decide (n ∈ names (engine w))))
             REQUIRED_COLLECTIONS), w')
    /\ (forall n,
          n ∈ names (engine w') <->
          n ∈ names (engine w) \/ n ∈ REQUIRED_COLLECTIONS)
    /\ ensure_collections mem w' = (Ok [], w'').
Proof.
  intros (w' & Hrun & Hready & Hnames)%ensure_collections_run.
  destruct (ensure_collections_run w' Hready) as (w'' & Hrun' & _ & _).
  exists w', w''. split; [done|]. split; [done|].
  rewrite Hrun'. f_equal. f_equal. unfold missing_in.
  apply List_filter_none. intros n Hn. apply negb_false_iff.
  apply bool_decide_eq_true_2, Hnames. by right.
Qed.

Lemma docs_of_Some (n : string) (e : Mem) (ds : list Document) :
  docs_of n e = Some ds ->
  exists s, List.find (has_name n) (collections e) = Some s /\ docs s = ds.
Proof.
  unfold docs_of. destruct (List.find _ _) as [s|]; [|done].
  intros [= <-]. by exists s.
Qed.

Lemma has_id_self (s : Stored) : has_id (id (handle s)) s = true.
Proof. apply Nat.eqb_refl. Qed.

(** A collection found by name can be reached through its identifier. *)
Lemma find_has_id_is_Some (n : string) (cs : list Stored) (s : Stored) :
  List.find (has_name n) cs = Some s ->
  is_Some (List.find (has_id (id (handle s))) cs).
Proof.
  intros [Hin _]%find_some.
  destruct (List.find (has_id (id (handle s))) cs) eqn:Hfind; [by eexists|].
  eapply find_none in Hfind; [|done]. by rewrite has_id_self in Hfind.
Qed.

(** Altering by identifier, with a change that keeps names, alters the
    collection found by name. *)
Lemma find_name_alter_id (f : Stored -> Stored) (n : string)
    (cs : list Stored) (s : Stored) :
  (forall x, name (handle (f x)) = name (handle x)) ->
  List.find (has_name n) cs = Some s ->
  List.find (has_name n) (alter_id f (id (handle s)) cs) = Some (f s).
Proof.
  intros Hf. unfold alter_id.
  induction cs as [|x cs IH]; [done|]. cbn [List.find List.map].
  destruct (has_name n x) eqn:Hx.
  - intros [= ->]. rewrite has_id_self. unfold has_name in *.
    by rewrite Hf, Hx.
  - intros Hs. specialize (IH Hs).
    destruct (has_id (id (handle s)) x); unfold has_name in *;
      by rewrite ?Hf, Hx.
Qed.

(** C4 (as amended): over the in-memory engine, [delete_documents] does
    not raise on ids the collection lacks; it removes the ids that are
    there and leaves the rest, so deleting only unknown ids changes
    nothing; and it returns the number of ids it was asked to delete,
    present or not. *)
Theorem delete_documents_returns_requested
    (w : World Mem) (collection_name : string) (ids : list string)
    (ds : list Document) :
  client_ready w = true ->
  docs_of collection_name (engine w) = Some ds ->
  exists w',
    delete_documents mem collection_name ids w = (Ok (length ids), w')
    /\ docs_of collection_name (engine w')
       = Some (List.filter (fun d => negb (bool_decide (doc_id d ∈ ids))) ds)
    /\ ((forall i, i ∈ ids -> i ∉ List.map doc_id ds) ->
        docs_of collection_name (engine w') = Some ds).
Proof.
  intros (c & w1 & d & Hc & He & _)%client_ready_Ok
         (s & Hfind & <-)%docs_of_Some.
  unfold delete_documents, get_collection.
  rewrite !bind_eq, Hc, invoke_eq.
  cbn [mem client_get_collection]. unfold engine_get_collection.
  rewrite He, Hfind. cbn [fst snd].
  rewrite bind_eq, invoke_eq. cbn [mem col_delete logged engine].
  unfold delete. destruct (find_has_id_is_Some _ _ _ Hfind) as [s' ->].
  cbn [fst snd]. eexists. split; [reflexivity|].
  assert (Hdocs :
    docs_of collection_name
      (engine
         (logged (logged w1 (call_get_collection collection_name) (engine w))
            (call_delete (handle s) ids)
            (set_collections
               (alter_id
                  (fun s0 =>
                     {| handle := handle s0;
                        docs := List.filter
                                  (fun d => negb (bool_decide (doc_id d ∈ ids)))
                                  (docs s0) |})
                  (id (handle s)) (collections (engine w))) (engine w))))
    = Some (List.filter (fun d => negb (bool_decide (doc_id d ∈ ids))) (docs s))).
  { unfold docs_of. cbn [logged engine set_collections collections].
    by rewrite (find_name_alter_id _ _ _ s). }
  split; [exact Hdocs|].
  intros Hunknown. rewrite Hdocs. f_equal.
  apply forallb_filter_id, forallb_forall. intros x Hx.
  apply negb_true_iff, bool_decide_eq_false. intros Hin.
  apply (Hunknown _ Hin), list_elem_of_In, in_map, Hx.
Qed.

Lemma find_id_of_name (n : string) (cs : list Stored) (s : Stored) :
  NoDup (List.map (fun s => id (handle s)) cs) ->
  List.find (has_name n) cs = Some s ->
  List.find (has_id (id (handle s))) cs = Some s.
Proof.
  induction cs as [|x cs IH]; [done|]. cbn [List.map List.find].
  intros [Hx Hnd]%NoDup_cons. destruct (has_name n x).
  - intros [= ->]. by rewrite has_id_self.
  - intros Hs. destruct (has_id (id (handle s)) x) eqn:Hid; [|by apply IH].
    exfalso. apply Hx. apply Nat.eqb_eq in Hid. rewrite Hid.
    apply find_some in Hs as [Hin _].
    apply list_elem_of_In, (in_map (fun s => id (handle s))), Hin.
Qed.

Lemma find_app {A} (f : A -> bool) (l1 l2 : list A) :
  List.find f (l1 ++ l2)
  = match List.find f l1 with
    | Some x => Some x
    | None => List.find f l2
    end.
Proof. induction l1 as [|x l1 IH]; [done|]. cbn. by destruct (f x). Qed.

Lemma find_name_filter_same (n : string) (cs : list Stored) :
  List.find (has_name n) (List.filter (fun s => negb (has_name n s)) cs) = None.
Proof.
  induction cs as [|x cs IH]; [done|]. cbn.
  destruct (has_name n x) eqn:Hx; cbn; [done|]. by rewrite Hx.
Qed.

Lemma find_name_filter_other (n new : string) (cs : list Stored) :
  n <> new ->
  List.find (has_name n) (List.filter (fun s => negb (has_name new s)) cs)
  = List.find (has_name n) cs.
Proof.
  intros Hne. induction cs as [|x cs IH]; [done|]. cbn.
  destruct (has_name new x) eqn:Hx; cbn.
  - assert (has_name n x = false) as ->; [|done].
    unfold has_name in *. apply String.eqb_eq in Hx.
    apply String.eqb_neq. congruence.
  - by destruct (has_name n x).
Qed.

Lemma filter_name_absent (n : string) (cs : list Stored) :
  List.find (has_name n) cs = None ->
  List.filter (fun s => negb (has_name n s)) cs = cs.
Proof.
  induction cs as [|x cs IH]; [done|]. cbn.
  destruct (has_name n x); [done|]. cbn. intros H. by rewrite IH.
Qed.

Lemma has_id_fresh (cs : list Stored) (s : Stored) :
  s ∈ cs -> has_id (fresh_id cs) s = false.
Proof.
  intros Hin. apply Nat.eqb_neq. unfold fresh_id.
  assert (id (handle s) <= max_list (List.map (fun s => id (handle s)) cs))%nat.
  { apply max_list_elem_of_le.
    apply list_elem_of_In, (in_map (fun s => id (handle s))), list_elem_of_In, Hin. }
  lia.
Qed.

Lemma find_id_fresh (cs : list Stored) :
  List.find (has_id (fresh_id cs)) cs = None.
Proof.
  apply find_none_all_false. intros s. apply has_id_fresh.
Qed.

Lemma alter_id_fresh (f : Stored -> Stored) (cs : list Stored) :
  alter_id f (fresh_id cs) cs = cs.
Proof.
  unfold alter_id. transitivity (List.map (fun s : Stored => s) cs).
  - apply map_ext_in. intros s Hin%list_elem_of_In.
    by rewrite has_id_fresh.
  - apply List.map_id.
Qed.

Lemma mk_docs_map (ds : list Document) :
  mk_docs (List.map doc_id ds) (List.map doc_text ds)
    (List.map doc_metadata ds) = ds.
Proof. induction ds as [|[] ds IH]; [done|]. cbn. by rewrite IH. Qed.

Lemma match_nonempty {A B} (l : list A) (a b : B) :
  l <> [] -> match l with [] => a | _ :: _ => b end = b.
Proof. by destruct l. Qed.

Lemma existsb_in_nil {A} `{EqDecision A} (l : list A) :
  existsb (fun i => bool_decide (i ∈ @nil A)) l = false.
Proof.
  induction l as [|x l IH]; [done|]. cbn. rewrite IH.
  rewrite bool_decide_eq_false_2; [done|]. apply not_elem_of_nil.
Qed.

Lemma existsb_empty_dict (ms : list Metadata) :
  Forall (fun m => m <> ∅) ms ->
  existsb (fun m => bool_decide (m = ∅)) ms = false.
Proof.
  induction 1 as [|m ms Hm _ IH]; [done|]. cbn.
  by rewrite IH, bool_decide_eq_false_2.
Qed.

(** Adding to a collection just created under a fresh identifier. *)
Lemma add_fresh (cs : list Stored) (h : Collection) (ds : list Document)
    (e : Mem) :
  id h = fresh_id cs ->
  NoDup (List.map doc_id ds) ->
  Forall (fun d => doc_metadata d <> ∅) ds ->
  add h (List.map doc_id ds) (List.map doc_text ds) (List.map doc_metadata ds)
    (set_collections (cs ++ [{| handle := h; docs := [] |}]) e)
  = (Ok tt,
     set_collections (cs ++ [{| handle := h; docs := ds |}])
       (set_collections (cs ++ [{| handle := h; docs := [] |}]) e)).
Proof.
  intros Hid Hnd Hmd. unfold add. cbn [set_collections collections].
  rewrite Hid, find_app, find_id_fresh. cbn [List.find].
  unfold has_id at 1. cbn [handle]. rewrite Hid, Nat.eqb_refl.
  rewrite !length_map, Nat.eqb_refl. cbn [andb negb].
  rewrite existsb_empty_dict by (by apply Forall_map).
  rewrite (bool_decide_eq_true_2 _ Hnd). cbn [negb orb docs List.map].
  rewrite existsb_in_nil. do 2 f_equal.
  unfold alter_id. rewrite List.map_app.
  change (List.map ?g cs) with (alter_id
    (fun s => {| handle := handle s;
                 docs := docs s ++ mk_docs (List.map doc_id ds)
                           (List.map doc_text ds)
                           (List.map doc_metadata ds) |})
    (fresh_id cs) cs).
  rewrite alter_id_fresh. cbn [List.map].
  unfold has_id. cbn [handle]. rewrite Hid, Nat.eqb_refl.
  cbn [handle docs app]. by rewrite mk_docs_map.
Qed.

(** The second half of [fork_collection]: once the new name is free, the
    collection is created and receives the documents read from the
    source. *)
Lemma fork_tail (c : Client) (new : string) (md : option Metadata)
    (ds : list Document) (w2 : World Mem) :
  dict_or_empty md <> ∅ ->
  Forall (fun d => doc_metadata d <> ∅) ds ->
  List.find (has_name new) (collections (engine w2)) = None ->
  NoDup (List.map doc_id ds) ->
  let data := {| ids := Some (List.map doc_id ds);
                 documents := Some (List.map doc_text ds);
                 metadatas := Some (List.map doc_metadata ds) |} in
  let h := {| id := fresh_id (collections (engine w2)); name := new;
              metadata := Some (dict_or_empty md) |} in
  exists w3 delta,
    (new_col ← invoke
       (call_create_collection new (Some (dict_or_empty md)))
       (client_create_collection mem c new (Some (dict_or_empty md)));
     match list_or (ids data) [] with
     | [] => mret tt
     | _ =>
         invoke
           (call_add new_col (list_or (ids data) [])
              (list_or (documents data)
                 (replicate (length (list_or (ids data) [])) ""))
              (list_or (metadatas data)
                 (replicate (length (list_or (ids data) [])) ∅)))
           (col_add mem new_col (list_or (ids data) [])
              (list_or (documents data)
                 (replicate (length (list_or (ids data) [])) ""))
              (list_or (metadatas data)
                 (replicate (length (list_or (ids data) [])) ∅)))
     end) w2 = (Ok tt, w3)
    /\ self w3 = self w2
    /\ engine w3
       = set_collections
           (collections (engine w2) ++ [{| handle := h; docs := ds |}])
           (engine w2)
    /\ calls w3 = calls w2 ++ delta
    /\ (ds = [] -> List.filter is_add delta = []).
Proof.
  intros Hmd Hdescribed Hfree Hnd data h. rewrite bind_eq, invoke_eq.
  cbn [mem client_create_collection]. unfold engine_create_collection.
  rewrite empty_dict_false by congruence.
  rewrite Hfree. unfold new_collection. cbn [fst snd]. fold h.
  destruct ds as [|d0 ds'].
  - cbn. eexists _, _. repeat split; reflexivity.
  - remember (d0 :: ds') as ds eqn:Hds.
    assert (Hids : list_or (ids data) [] = List.map doc_id ds)
      by (subst ds; reflexivity).
    assert (Hdocs : forall dflt, list_or (documents data) dflt
                                 = List.map doc_text ds)
      by (subst ds; reflexivity).
    assert (Hmetas : forall dflt, list_or (metadatas data) dflt
                                  = List.map doc_metadata ds)
      by (subst ds; reflexivity).
    rewrite Hids, Hdocs, Hmetas. clearbody data.
    assert (Hne : List.map doc_id ds <> []) by (subst ds; done).
    rewrite (match_nonempty _ _ _ Hne), invoke_eq.
    cbn [mem col_add logged engine].
    rewrite (add_fresh (collections (engine w2)) h ds) by done.
    cbn [fst snd]. eexists _, _. split; [reflexivity|].
    split; [reflexivity|]. split; [reflexivity|].
    split; [cbn [logged calls]; by rewrite <- app_assoc|].
    intros ->. discriminate.
Qed.

(** X23: given a non-empty metadata dict for the destination,
    [fork_collection] from a collection holding the documents [ds], each
    with metadata, succeeds and leaves under the new name a collection
    holding the same ids, documents and metadatas, whether or not the new
    name was taken before (a collection there is replaced, the others are
    untouched); and when the source is empty, no add call is issued. *)
Theorem fork_collection_copies_described
    (w : World Mem) (collection_name new_collection_name : string)
    (metadata : option Metadata) (ds : list Document) :
  client_ready w = true ->
  wf (engine w) ->
  docs_of collection_name (engine w) = Some ds ->
  dict_or_empty metadata <> ∅ ->
  Forall (fun d => doc_metadata d <> ∅) ds ->
  exists w' delta,
    fork_collection mem collection_name new_collection_name metadata w
    = (Ok tt, w')
    /\ docs_of new_collection_name (engine w') = Some ds
    /\ (forall n, n <> new_collection_name ->
          docs_of n (engine w') = docs_of n (engine w))
    /\ calls w' = calls w ++ delta
    /\ (ds = [] -> List.filter is_add delta = []).
Proof.
  intros (c & w1 & d & Hc & He & _ & Hcalls & Hadd)%client_ready_Ok
         (Hids & _ & Hdocs) (s & Hfind & <-)%docs_of_Some Hmd Hdescribed.
  unfold fork_collection.
  rewrite bind_eq, Hc, bind_eq, invoke_eq.
  cbn [mem client_get_collection]. unfold engine_get_collection.
  rewrite He, Hfind. cbn [fst snd].
  rewrite bind_eq, invoke_eq. cbn [mem col_get logged engine].
  unfold get. rewrite (find_id_of_name _ _ _ Hids Hfind).
  cbn [fst snd default].
  rewrite !bool_decide_eq_true_2 by (repeat constructor).
  rewrite bind_eq. unfold try_except. rewrite invoke_eq.
  cbn [mem client_delete_collection logged engine].
  assert (Hnd : NoDup (List.map doc_id (docs s))).
  { apply find_has_name in Hfind as [Hin _].
    by apply (proj1 (Forall_forall _ _) Hdocs). }
  set (cs1 := List.filter (fun x => negb (has_name new_collection_name x))
                (collections (engine w))).
  assert (Hfree : List.find (has_name new_collection_name) cs1 = None)
    by apply find_name_filter_same.
  assert (Hlater :
    forall w2 : World Mem,
      engine w2 = set_collections cs1 (engine w) ->
      (exists d2, calls w2 = calls w ++ d2 /\ List.filter is_add d2 = []) ->
      exists w' delta,
        (new_col ← invoke
           (call_create_collection new_collection_name
              (Some (dict_or_empty metadata)))
           (client_create_collection mem c new_collection_name
              (Some (dict_or_empty metadata)));
         match list_or (Some (List.map doc_id (docs s))) [] with
         | [] => mret tt
         | _ =>
             invoke
               (call_add new_col (list_or (Some (List.map doc_id (docs s))) [])
                  (list_or (Some (List.map doc_text (docs s)))
                     (replicate
                        (length (list_or (Some (List.map doc_id (docs s))) []))
                        ""))
                  (list_or (Some (List.map doc_metadata (docs s)))
                     (replicate
                        (length (list_or (Some (List.map doc_id (docs s))) []))
                        ∅)))
               (col_add mem new_col
                  (list_or (Some (List.map doc_id (docs s))) [])
                  (list_or (Some (List.map doc_text (docs s)))
                     (replicate
                        (length (list_or (Some (List.map doc_id (docs s))) []))
                        ""))
                  (list_or (Some (List.map doc_metadata (docs s)))
                     (replicate
                        (length (list_or (Some (List.map doc_id (docs s))) []))
                        ∅)))
         end) w2 = (Ok tt, w')
        /\ docs_of new_collection_name (engine w') = Some (docs s)
        /\ (forall n, n <> new_collection_name ->
              docs_of n (engine w') = docs_of n (engine w))
        /\ calls w' = calls w ++ delta
        /\ (docs s = [] -> List.filter is_add delta = [])).
  { intros w2 He2 (d2 & Hc2 & Ha2).
    destruct (fork_tail c new_collection_name metadata (docs s) w2)
      as (w3 & d3 & Hrun & _ & He3 & Hc3 & Ha3);
      [done|done|by rewrite He2|done|].
    exists w3, (d2 ++ d3). split; [exact Hrun|].
    rewrite He3, He2. unfold docs_of at 1 2.
    cbn [set_collections collections]. split; [|split; [|split]].
    - rewrite find_app, Hfree. cbn [List.find]. unfold has_name at 1.
      cbn [handle name]. by rewrite String.eqb_refl.
    - intros n Hn. rewrite find_app. subst cs1.
      rewrite find_name_filter_other by done.
      unfold docs_of.
      destruct (List.find (has_name n) (collections (engine w))); [done|].
      cbn [List.find]. unfold has_name at 1. cbn [handle name].
      apply String.eqb_neq in Hn. rewrite String.eqb_sym in Hn.
      by rewrite Hn.
    - by rewrite Hc3, Hc2, app_assoc.
    - intros Hnil. by rewrite List.filter_app, Ha2, (Ha3 Hnil). }
  unfold engine_delete_collection.
  destruct (List.find (has_name new_collection_name) (collections (engine w)))
    eqn:Hnew; cbn [fst snd].
  - apply Hlater; [done|].
    cbn [logged calls]. rewrite Hcalls, <- !app_assoc.
    eexists. split; [reflexivity|]. by rewrite List.filter_app, Hadd.
  - apply Hlater.
    + cbn [logged engine]. subst cs1. rewrite (filter_name_absent _ _ Hnew).
      by destruct (engine w).
    + cbn [logged calls]. rewrite Hcalls, <- !app_assoc.
      eexists. split; [reflexivity|]. by rewrite List.filter_app, Hadd.
Qed.

Lemma sample_engine_wf : wf sample_engine.
Proof.
  unfold wf. split; [|split].
  - apply (bool_decide_unpack _). reflexivity.
  - apply (bool_decide_unpack _). reflexivity.
  - apply (bool_decide_unpack _). reflexivity.
Defined.


Lemma ensure_collections_idempotent_witness :
  client_ready sample_world = true
  /\ exists w' w'',
       ensure_collections mem sample_world
       = (Ok ["business-and-architecture"; "tech-specs"], w')
       /\ (forall n,
             n ∈ names (engine w') <->
             n ∈ names (engine sample_world) \/ n ∈ REQUIRED_COLLECTIONS)
       /\ ensure_collections mem w' = (Ok [], w'').
Proof.
  split; [reflexivity|].
  exact (ensure_collections_idempotent sample_world eq_refl).
Defined.

Lemma delete_documents_returns_requested_witness :
  client_ready sample_world = true
  /\ docs_of "features" (engine sample_world)
     = Some [ {| doc_id := "a"; doc_text := "login";
                 doc_metadata := sample_metadata |};
              {| doc_id := "b"; doc_text := "logout"; doc_metadata := ∅ |} ]
  /\ exists w',
       delete_documents mem "features" ["a"; "ghost"] sample_world
       = (Ok 2, w')
       /\ docs_of "features" (engine w')
          = Some [ {| doc_id := "b"; doc_text := "logout";
                      doc_metadata := ∅ |} ].
Proof.
  split; [reflexivity|]. split; [reflexivity|].
  destruct (delete_documents_returns_requested sample_world "features"
              ["a"; "ghost"] _ eq_refl eq_refl) as (w' & Hrun & Hdocs & _).
  exists w'. split; [exact Hrun|]. rewrite Hdocs. reflexivity.
Defined.

(** C4, the claim as stated fails: the id ghost is in no document of
    features; deleting it raises nothing and changes nothing, yet the
    count returned is 1, not 0. *)
Lemma delete_documents_unknown_id_counted :
  docs_of "features" (engine sample_world)
  = Some [ {| doc_id := "a"; doc_text := "login";
              doc_metadata := sample_metadata |};
           {| doc_id := "b"; doc_text := "logout"; doc_metadata := ∅ |} ]
  /\ (delete_documents mem "features" ["ghost"] sample_world).1 = Ok 1
  /\ (delete_documents mem "features" ["ghost"] sample_world).1 <> Ok 0
  /\ docs_of "features"
       (engine (delete_documents mem "features" ["ghost"] sample_world).2)
     = docs_of "features" (engine sample_world).
Proof. repeat split; try reflexivity. discriminate. Qed.

Lemma fork_collection_copies_described_witness :
  let e :=
    {| collections :=
         [ {| handle := {| id := 1; name := "features"; metadata := None |};
              docs := [ {| doc_id := "a"; doc_text := "login";
                           doc_metadata := sample_metadata |} ] |};
           {| handle := {| id := 2; name := "uisi"; metadata := None |};
              docs := [] |} ];
       available := true;
       cwd := PurePath "/" |} in
  let w := {| self := get_context_store (PurePath "/p"); engine := e;
              calls := [] |} in
  client_ready w = true
  /\ wf e
  /\ exists w',
       fork_collection mem "features" "uisi" (Some sample_metadata) w
       = (Ok tt, w')
       /\ docs_of "uisi" (engine w')
          = Some [ {| doc_id := "a"; doc_text := "login";
                      doc_metadata := sample_metadata |} ]
       /\ docs_of "features" (engine w') = docs_of "features" e.
Proof.
  intros e w.
  assert (Hwf : wf e).
  { unfold wf. split; [|split]; apply (bool_decide_unpack _); reflexivity. }
  split; [reflexivity|]. split; [exact Hwf|].
  destruct (fork_collection_copies_described w "features" "uisi"
              (Some sample_metadata) _ eq_refl Hwf eq_refl)
    as (w' & delta & Hrun & Hdocs & Hother & _).
  - done.
  - repeat constructor. done.
  - exists w'. split; [exact Hrun|]. split; [exact Hdocs|]. by apply Hother.
Defined.

(** C2: the code at the failing input.  Forking features, which holds two
    documents, without a metadata argument hands the engine an empty dict
    as the metadata of the new collection, which the engine refuses: the
    call raises, nothing is copied, and a collection that occupied the new
    name (uisi) is gone by then, deleted and not replaced.  The same
    happens with the empty dict given outright and with a free destination
    name, while [create_collection], which hands the engine no metadata in
    that case, succeeds. *)
Theorem fork_collection_default_metadata_refused :
  docs_of "features" (engine sample_world)
  = Some [ {| doc_id := "a"; doc_text := "login";
              doc_metadata := sample_metadata |};
           {| doc_id := "b"; doc_text := "logout"; doc_metadata := ∅ |} ]
  /\ docs_of "uisi" (engine sample_world) = Some []
  /\ (fork_collection mem "features" "uisi" None sample_world).1
     = Raise ValueError
  /\ last (calls (fork_collection mem "features" "uisi" None sample_world).2)
     = Some (call_create_collection "uisi" (Some ∅))
  /\ docs_of "uisi"
       (engine (fork_collection mem "features" "uisi" None sample_world).2)
     = None
  /\ (fork_collection mem "features" "copy" None sample_world).1
     = Raise ValueError
  /\ docs_of "copy"
       (engine (fork_collection mem "features" "copy" None sample_world).2)
     = None
  /\ (fork_collection mem "features" "copy" (Some ∅) sample_world).1
     = Raise ValueError
  /\ (create_collection mem "copy" None sample_world).1 = Ok tt.
Proof. repeat split; reflexivity. Qed.

(** Without a client to be had, [document_exists] answers [False]. *)
Example document_exists_offline :
  (document_exists mem "features" "a" offline_world).1 = Ok false
  /\ (document_exists mem "features" "a" sample_world).1 = Ok true
  /\ (document_exists mem "features" "ghost" sample_world).1 = Ok false
  /\ (document_exists mem "nowhere" "a" sample_world).1 = Ok false.
Proof. repeat split; reflexivity. Qed.

(** Both changes at once: metadata first, the rename second. *)
Example modify_collection_both :
  List.filter is_modify
    (calls (modify_collection mem "uisi" (Some "ui") (Some sample_metadata)
              sample_world).2)
  = [ call_modify {| id := 2; name := "uisi"; metadata := None |}
        None (Some sample_metadata);
      call_modify {| id := 2; name := "uisi"; metadata := Some sample_metadata |}
        (Some "ui") None ].
Proof. reflexivity. Qed.

(** An update that supplies neither documents nor metadatas reaches the
    engine with the ids alone, and 1 is returned. *)
Example update_documents_ids_only :
  (update_documents mem "features" ["a"] None None sample_world).1 = Ok 1
  /\ last (calls (update_documents mem "features" ["a"] None None
                    sample_world).2)
     = Some (call_update {| id := 1; name := "features"; metadata := None |}
               {[ "ids" := AStrs ["a"] ]}).
Proof. split; reflexivity. Qed.

(** *** The invariant of the engine is kept by its operations *)

Lemma NoDup_map_filter {A B} (f : A -> B) (p : A -> bool) (l : list A) :
  NoDup (List.map f l) -> NoDup (List.map f (List.filter p l)).
Proof.
  induction l as [|x l IH]; [done|]. cbn.
  intros [Hx Hl]%NoDup_cons. destruct (p x); [|by apply IH]. cbn.
  apply NoDup_cons. split; [|by apply IH].
  intros Hin. apply Hx.
  apply list_elem_of_In, in_map_iff in Hin as (y & <- & Hy).
  apply filter_In in Hy as [Hy _].
  by apply list_elem_of_In, in_map.
Qed.

Lemma Forall_List_filter {A} (P : A -> Prop) (p : A -> bool) (l : list A) :
  Forall P l -> Forall P (List.filter p l).
Proof.
  induction 1 as [|x l Hx Hl IH]; [constructor|]. cbn.
  destruct (p x); [by constructor|done].
Qed.

Lemma alter_id_map {B} (g : Stored -> B) (f : Stored -> Stored) (i : nat)
    (cs : list Stored) :
  (forall s, g (f s) = g s) ->
  List.map g (alter_id f i cs) = List.map g cs.
Proof.
  intros Hg. unfold alter_id. rewrite List.map_map.
  apply map_ext. intros s. by destruct (has_id i s).
Qed.

Lemma alter_id_Forall (P : Stored -> Prop) (f : Stored -> Stored) (i : nat)
    (cs : list Stored) :
  (forall s, s ∈ cs -> has_id i s = true -> P s -> P (f s)) ->
  Forall P cs -> Forall P (alter_id f i cs).
Proof.
  intros Hf Hall. unfold alter_id. apply Forall_forall.
  intros y Hy. apply list_elem_of_In, in_map_iff in Hy as (s & <- & Hs).
  apply list_elem_of_In in Hs.
  pose proof (proj1 (Forall_forall _ _) Hall s Hs) as HP.
  destruct (has_id i s) eqn:Hi; [by apply Hf|done].
Qed.

Lemma new_collection_wf (n : string) (md : option Metadata) (e : Mem) :
  wf e -> List.find (has_name n) (collections e) = None ->
  wf (new_collection n md e).2.
Proof.
  intros (Hids & Hnames & Hdocs) Hfree. unfold wf, names, new_collection.
  cbn [snd set_collections collections]. rewrite !List.map_app. cbn [List.map].
  split; [|split].
  - apply NoDup_app. split; [done|]. split; [|apply NoDup_singleton].
    intros i Hi ->%list_elem_of_singleton.
    apply list_elem_of_In, in_map_iff in Hi as (s & Hs & Hin).
    apply list_elem_of_In, has_id_fresh, Nat.eqb_neq in Hin. cbn in Hs. lia.
  - apply NoDup_app. split; [done|]. split; [|apply NoDup_singleton].
    intros x Hx ->%list_elem_of_singleton.
    apply list_elem_of_In, in_map_iff in Hx as (s & Hs & Hin).
    eapply find_none in Hfree; [|exact Hin].
    unfold has_name in Hfree. cbn in Hs. rewrite Hs, String.eqb_refl in Hfree.
    done.
  - apply Forall_app. split; [done|]. repeat constructor.
Qed.

Lemma mk_docs_ids (ids documents : list string) (metadatas : list Metadata) :
  length documents = length ids -> length metadatas = length ids ->
  List.map doc_id (mk_docs ids documents metadatas) = ids.
Proof.
  revert documents metadatas.
  induction ids as [|i ids IH]; intros [|d ds] [|m ms]; try done.
  cbn. intros [= Hd] [= Hm]. by rewrite IH.
Qed.

Lemma overwrite_id (ids : list string) (documents : option (list string))
    (metadatas : option (list Metadata)) (d : Document) :
  doc_id (overwrite ids documents metadatas d) = doc_id d.
Proof.
  revert documents metadatas. induction ids as [|i ids IH]; [done|].
  intros documents metadatas. cbn. by destruct (String.eqb i (doc_id d)).
Qed.

Lemma has_id_unique (i : nat) (cs : list Stored) (s0 s : Stored) :
  NoDup (List.map (fun s => id (handle s)) cs) ->
  List.find (has_id i) cs = Some s0 ->
  s ∈ cs -> has_id i s = true -> s = s0.
Proof.
  induction cs as [|x cs IH]; [by intros _ _ ?%elem_of_nil|].
  cbn [List.map List.find]. intros [Hx Hnd]%NoDup_cons Hfind Hin Hs.
  assert (Hmem : forall y, y ∈ cs -> has_id i y = true -> has_id i x = false).
  { intros y Hy Hyi. destruct (has_id i x) eqn:Hxi; [|done]. exfalso.
    apply Hx. apply Nat.eqb_eq in Hxi, Hyi. rewrite Hxi, <- Hyi.
    apply list_elem_of_In, (in_map (fun s => id (handle s))), list_elem_of_In, Hy. }
  apply elem_of_cons in Hin as [->|Hin].
  - rewrite Hs in Hfind. congruence.
  - rewrite (Hmem _ Hin Hs) in Hfind. by apply IH.
Qed.

Lemma add_wf (col : Collection) (ids documents : list string)
    (metadatas : list Metadata) (e : Mem) :
  wf e -> wf (add col ids documents metadatas e).2.
Proof.
  intros (Hids & Hnames & Hdocs). unfold add.
  destruct (List.find (has_id (id col)) (collections e)) as [s0|] eqn:Hf;
    [|done].
  destruct (negb _) eqn:Hlen; [done|].
  destruct (existsb _ metadatas); [done|].
  destruct (negb (bool_decide (NoDup ids)) || _) eqn:Hdup; [done|].
  apply negb_false_iff, andb_true_iff in Hlen as [Hd%Nat.eqb_eq Hm%Nat.eqb_eq].
  apply orb_false_iff in Hdup as [Hnd%negb_false_iff%bool_decide_eq_true Hex].
  unfold wf, names. cbn [snd set_collections collections].
  rewrite !alter_id_map by done. split; [done|]. split; [done|].
  apply alter_id_Forall; [|done]. intros s Hin Hs Hnds. cbn [docs].
  rewrite (has_id_unique _ _ _ _ Hids Hf Hin Hs).
  rewrite List.map_app, mk_docs_ids by done.
  apply NoDup_app. split; [by rewrite <- (has_id_unique _ _ _ _ Hids Hf Hin Hs)|].
  split; [|done]. intros x Hx Hin'.
  assert (Hfalse : existsb
            (fun i => bool_decide (i ∈ List.map doc_id (docs s0))) ids = true).
  { apply existsb_exists. exists x. split; [by apply list_elem_of_In|].
    by apply bool_decide_eq_true_2. }
  congruence.
Qed.

Lemma update_wf (col : Collection) (kwargs : gmap string Arg) (e : Mem) :
  wf e -> wf (update col kwargs e).2.
Proof.
  intros (Hids & Hnames & Hdocs). unfold update.
  destruct (List.find (has_id (id col)) (collections e)) as [s0|]; [|done].
  destruct (kwargs !! "ids") as [[ids|]|]; [|done..].
  destruct (negb _); [done|]. destruct (negb _); [done|].
  unfold wf, names. cbn [snd set_collections collections].
  rewrite !alter_id_map by done. split; [done|]. split; [done|].
  apply alter_id_Forall; [|done]. intros s _ _ Hs. cbn [docs].
  rewrite List.map_map.
  erewrite map_ext; [exact Hs|]. intros d. apply overwrite_id.
Qed.

Lemma delete_wf (col : Collection) (ids : list string) (e : Mem) :
  wf e -> wf (delete col ids e).2.
Proof.
  intros (Hids & Hnames & Hdocs). unfold delete.
  destruct (List.find (has_id (id col)) (collections e)) as [s0|]; [|done].
  unfold wf, names. cbn [snd set_collections collections].
  rewrite !alter_id_map by done. split; [done|]. split; [done|].
  apply alter_id_Forall; [|done]. intros s _ _ Hs. cbn [docs].
  by apply NoDup_map_filter.
Qed.

Lemma alter_id_absent (f : Stored -> Stored) (i : nat) (cs : list Stored) :
  (forall s, s ∈ cs -> has_id i s = false) -> alter_id f i cs = cs.
Proof.
  intros Hno. unfold alter_id. transitivity (List.map (fun s : Stored => s) cs).
  - apply map_ext_in. intros s Hin%list_elem_of_In. by rewrite Hno.
  - apply List.map_id.
Qed.

(** Renaming the one collection with identifier [i] keeps names unique,
    provided the new name is its own or is not in use. *)
Lemma rename_keeps_names (h : Collection) (i : nat) (cs : list Stored)
    (s0 : Stored) :
  NoDup (List.map (fun s => id (handle s)) cs) ->
  NoDup (List.map (fun s => name (handle s)) cs) ->
  List.find (has_id i) cs = Some s0 ->
  name h = name (handle s0)
  \/ name h ∉ List.map (fun s => name (handle s)) cs ->
  NoDup (List.map (fun s => name (handle s))
           (alter_id (fun s => {| handle := h; docs := docs s |}) i cs)).
Proof.
  induction cs as [|x cs IH]; [done|]. cbn [List.map List.find].
  intros [Hxi Hids]%NoDup_cons [Hxn Hnames]%NoDup_cons Hfind Hnew.
  unfold alter_id. cbn [List.map].
  fold (alter_id (fun s => {| handle := h; docs := docs s |}) i cs).
  destruct (has_id i x) eqn:Hx.
  - injection Hfind as ->. rewrite alter_id_absent.
    + cbn [handle]. apply NoDup_cons. split; [|done].
      destruct Hnew as [-> | Hnew]; [done|].
      intros Hin. apply Hnew. by apply list_elem_of_further.
    + intros s Hs. destruct (has_id i s) eqn:Hsi; [|done]. exfalso. apply Hxi.
      apply Nat.eqb_eq in Hx, Hsi. rewrite Hx, <- Hsi.
      apply list_elem_of_In, (in_map (fun s => id (handle s))), list_elem_of_In, Hs.
  - apply NoDup_cons. split.
    + intros Hin. unfold alter_id in Hin.
      apply list_elem_of_In, in_map_iff in Hin as (y & Hy & Hin).
      apply in_map_iff in Hin as (s & <- & Hs).
      destruct (has_id i s).
      * cbn [handle] in Hy. destruct Hnew as [Hnew | Hnew].
        -- apply Hxn. rewrite <- Hy, Hnew.
           apply find_some in Hfind as [Hin0 _].
           apply list_elem_of_In, (in_map (fun s => name (handle s))), Hin0.
        -- apply Hnew. rewrite Hy. apply list_elem_of_here.
      * apply Hxn. rewrite <- Hy.
        apply list_elem_of_In, (in_map (fun s => name (handle s))), Hs.
    + apply IH; try done. destruct Hnew as [Hnew | Hnew]; [by left|right].
      intros Hin. apply Hnew. by apply list_elem_of_further.
Qed.

Lemma modify_wf (col : Collection) (new_name : option string)
    (md : option Metadata) (e : Mem) :
  wf e -> wf (modify col new_name md e).2.
Proof.
  intros (Hids & Hnames & Hdocs). unfold modify.
  destruct (List.find (has_id (id col)) (collections e)) as [s0|] eqn:Hf;
    [|done].
  match goal with |- context [if ?b then _ else _] => destruct b eqn:Hclash end;
    [done|].
  unfold wf, names. cbn [snd set_collections collections].
  split; [|split].
  - unfold alter_id. rewrite List.map_map.
    erewrite map_ext; [exact Hids|]. intros s. cbn.
    destruct (has_id (id col) s) eqn:Hs; [|done]. cbn.
    apply find_some in Hf as [_ Hs0].
    apply Nat.eqb_eq in Hs, Hs0. congruence.
  - apply rename_keeps_names with (s0 := s0); try done. cbn [name].
    destruct new_name as [n|]; [|by left]. cbn [default].
    apply andb_false_iff in Hclash as [Hsame | Hfree].
    + left. apply negb_false_iff, String.eqb_eq in Hsame. done.
    + right. apply bool_decide_eq_false in Hfree.
      intros Hin. apply Hfree.
      apply list_elem_of_In, in_map_iff in Hin as (s & Hs & Hin).
      destruct (List.find (has_name n) (collections e)) eqn:Hfn; [by eexists|].
      eapply find_none in Hfn; [|exact Hin].
      unfold has_name in Hfn. by rewrite Hs, String.eqb_refl in Hfn.
  - apply alter_id_Forall; [|done]. by intros s _ _ Hs.
Qed.

(** Every operation of the in-memory engine that changes collections keeps
    identifiers, names and document ids unique. *)
Lemma mem_keeps_wf (e : Mem) (c : Client) (col : Collection) (n : string) :
  wf e ->
  (forall md, wf (engine_get_or_create_collection c n md e).2)
  /\ (forall md, wf (engine_create_collection c n md e).2)
  /\ wf (engine_delete_collection c n e).2
  /\ (forall ids documents metadatas, wf (add col ids documents metadatas e).2)
  /\ (forall kwargs, wf (update col kwargs e).2)
  /\ (forall ids, wf (delete col ids e).2)
  /\ (forall new_name md, wf (modify col new_name md e).2).
Proof.
  intros Hwf. pose proof Hwf as (Hids & Hnames & Hdocs).
  split; [|split; [|split; [|split; [|split; [|split]]]]].
  - intros md. unfold engine_get_or_create_collection.
    destruct (empty_dict md); [done|].
    destruct (List.find (has_name n) (collections e)) eqn:Hf; [done|].
    by apply new_collection_wf.
  - intros md. unfold engine_create_collection.
    destruct (empty_dict md); [done|].
    destruct (List.find (has_name n) (collections e)) eqn:Hf; [done|].
    by apply new_collection_wf.
  - unfold engine_delete_collection.
    destruct (List.find (has_name n) (collections e)); [|done].
    unfold wf, names. cbn [snd set_collections collections].
    split; [by apply NoDup_map_filter|].
    split; [by apply (NoDup_map_filter (fun s => name (handle s)))|].
    by apply Forall_List_filter.
  - intros. by apply add_wf.
  - intros. by apply update_wf.
  - intros. by apply delete_wf.
  - intros. by apply modify_wf.
Qed.

End InMemory.


(** ** Further properties of the store, over any engine *)

Section RestAnyEngine.
Context {E : Type}.
Variable eng : Engine E.

(** X1: the client is constructed at most once.  When [_client_or_raise]
    returns a client it has stored it, and asking again returns the same
    client without touching the engine or the log; when construction fails
    the store keeps no client, so a later call tries again.  The project
    root never changes. *)
Theorem _client_or_raise_cached (w : World E) :
  let out := _client_or_raise eng w in
  _project_root (self out.2) = _project_root (self w)
  /\ match out.1 with
     | Ok c =>
         _client (self out.2) = Some c
         /\ _client_or_raise eng out.2 = (Ok c, out.2)
     | Raise _ => _client (self out.2) = None
     end.
Proof.
  cbn zeta. unfold _client_or_raise, get_self. rewrite bind_eq.
  destruct (_client (self w)) as [c|] eqn:Hc.
  - cbn. rewrite Hc. repeat split; try done.
    unfold mbind, M_bind. cbn. by rewrite Hc.
  - unfold get_chromadb_client, try_except, set_client, raise.
    rewrite !bind_eq, invoke_eq.
    destruct (os_mkdir eng _ (engine w)) as [[[]|e] e1]; cbn [fst snd];
      [|done].
    rewrite bind_eq, invoke_eq. cbn [logged engine].
    destruct (PersistentClient eng _ e1) as [[c|e] e2];
      unfold mbind, M_bind, mret, M_ret; cbn; done.
Qed.

(** X2: [get_chromadb_client] creates the parent directory of the database
    file first and opens the client on the string of that directory,
    resolved.  If the directory cannot be made the client is never opened;
    either failure reaches the caller as the exception the engine raised. *)
Theorem get_chromadb_client_order (project_root : Path) (w : World E) :
  let dir := parent (get_chromadb_path project_root) in
  let out := get_chromadb_client eng project_root w in
  match os_mkdir eng dir (engine w) with
  | (Raise e, e1) => out = (Raise e, logged w (call_mkdir dir) e1)
  | (Ok _, e1) =>
      let path := str (os_resolve eng dir e1) in
      out.1 = (PersistentClient eng path e1).1
      /\ calls out.2 = calls w ++ [call_mkdir dir; call_PersistentClient path]
      /\ engine out.2 = (PersistentClient eng path e1).2
  end.
Proof.
  cbn zeta. unfold get_chromadb_client, try_except, raise.
  rewrite !bind_eq, invoke_eq.
  destruct (os_mkdir eng _ (engine w)) as [[[]|e] e1]; cbn [fst snd]; [|done].
  rewrite bind_eq, invoke_eq. cbn [logged engine calls].
  destruct (PersistentClient eng _ e1) as [[c|e] e2]; cbn;
    by rewrite <- app_assoc.
Qed.

Lemma slice_from_suffix {A} (l : list A) (offset : Z) :
  exists pre, l = pre ++ slice_from l offset.
Proof.
  unfold slice_from. destruct (0 <=? offset)%Z; eexists; symmetry; apply take_drop.
Qed.

Lemma slice_to_prefix {A} (l : list A) (limit : Z) :
  exists post, l = slice_to l limit ++ post.
Proof.
  unfold slice_to. destruct (0 <=? limit)%Z; eexists; symmetry; apply take_drop.
Qed.

Lemma slice_to_length {A} (l : list A) (limit : Z) :
  (0 <= limit)%Z -> (Z.of_nat (length (slice_to l limit)) <= limit)%Z.
Proof.
  intros Hk. unfold slice_to. rewrite (proj2 (Z.leb_le _ _) Hk).
  rewrite length_take. lia.
Qed.

Lemma slice_from_beyond {A} (l : list A) (offset : Z) :
  (Z.of_nat (length l) <= offset)%Z -> slice_from l offset = [].
Proof.
  intros Ho. unfold slice_from.
  assert (Hnn : (0 <=? offset)%Z = true) by (apply Z.leb_le; lia).
  rewrite Hnn. apply drop_ge. lia.
Qed.

(** X3: [list_collections] returns a contiguous run of the names the engine
    lists, in the engine's order, the offset applied before the limit.  A
    non-negative limit bounds the length of the result; an offset at or
    beyond the number of collections gives the empty list; no slice ever
    raises.  Without limit and offset all names are returned. *)
Theorem list_collections_slice
    (limit offset : option Z) (w w1 : World E) (c : Client)
    (cols : list Collection) (e2 : E) :
  _client_or_raise eng w = (Ok c, w1) ->
  client_list_collections eng c (engine w1) = (Ok cols, e2) ->
  exists l pre post,
    list_collections eng limit offset w
    = (Ok l, logged w1 call_list_collections e2)
    /\ List.map name cols = pre ++ l ++ post
    /\ (forall k, limit = Some k -> (0 <= k)%Z ->
          (Z.of_nat (length l) <= k)%Z)
    /\ (forall o, offset = Some o -> (Z.of_nat (length cols) <= o)%Z ->
          l = [])
    /\ (forall o k, offset = Some o -> limit = Some k ->
          (0 <= o)%Z -> (0 <= k)%Z ->
          l = take (Z.to_nat k) (drop (Z.to_nat o) (List.map name cols)))
    /\ (limit = None -> offset = None -> l = List.map name cols).
Proof.
  intros Hc Hlist. unfold list_collections.
  rewrite bind_eq, Hc, bind_eq, invoke_eq, Hlist. cbn [fst snd].
  set (names := List.map name cols).
  set (after := match offset with
                | Some o => slice_from names o
                | None => names
                end).
  set (l := match limit with Some k => slice_to after k | None => after end).
  assert (Hafter : exists pre, names = pre ++ after).
  { subst after. destruct offset; [apply slice_from_suffix|by exists []]. }
  assert (Hl : exists post, after = l ++ post).
  { subst l. destruct limit; [apply slice_to_prefix|].
    exists []. by rewrite app_nil_r. }
  destruct Hafter as [pre Hpre], Hl as [post Hpost].
  exists l, pre, post. split; [done|]. split; [by rewrite Hpre, Hpost|].
  split; [|split; [|split]].
  - intros k -> Hk. subst l. by apply slice_to_length.
  - intros o -> Ho. subst l after.
    rewrite slice_from_beyond by (subst names; rewrite length_map; lia).
    destruct limit as [k|]; [|done]. unfold slice_to.
    by destruct (0 <=? k)%Z; rewrite take_nil.
  - intros o k -> -> Ho Hk. subst l after. unfold slice_to, slice_from.
    by rewrite (proj2 (Z.leb_le _ _) Ho), (proj2 (Z.leb_le _ _) Hk).
  - by intros -> ->.
Qed.

(** [create_collection] hands an empty metadata dict to the engine as
    [None]: creating with [{}] is the same call, with the same outcome, as
    creating without metadata, while a non-empty dict is passed as given. *)
Theorem create_collection_empty_metadata
    (collection_name : string) (m : Metadata) (w : World E) :
  create_collection eng collection_name (Some ∅) w
  = create_collection eng collection_name None w
  /\ (m <> ∅ ->
      forall c w1,
        _client_or_raise eng w = (Ok c, w1) ->
        calls (create_collection eng collection_name (Some m) w).2
        = calls w1 ++ [call_get_or_create_collection collection_name (Some m)]).
Proof.
  split; [reflexivity|]. intros Hm c w1 Hc. unfold create_collection.
  rewrite bind_eq, Hc, bind_eq, invoke_eq. unfold dict_or_None.
  destruct (decide (m = ∅)); [done|].
  by destruct (client_get_or_create_collection eng c collection_name _ _)
    as [[col|e] e2].
Qed.

Section ReadSideProps.
Context {Filter Bundle : Type}.
Variable col_get_kwargs :
  Collection -> gmap string (Kw Filter) -> E -> result GetResult * E.
Variable col_query :
  Collection -> gmap string (Kw Filter) -> E -> result Bundle * E.

Lemma lookup_set_if_given (key k : string) (value : option (Kw Filter))
    (kwargs : gmap string (Kw Filter)) :
  set_if_given key value kwargs !! k
  = if decide (k = key)
    then match value with Some v => Some v | None => kwargs !! k end
    else kwargs !! k.
Proof.
  unfold set_if_given. destruct value as [v|].
  - case_decide as Hk; [subst; apply lookup_insert_eq|].
    by apply lookup_insert_ne.
  - by case_decide.
Qed.

Lemma perform_eq {A} (op : E -> result A * E) (w : World E) :
  perform op w
  = ((op (engine w)).1,
     {| self := self w; engine := (op (engine w)).2; calls := calls w |}).
Proof. unfold perform. by destruct (op (engine w)). Qed.

(** X4: [get_documents] hands the engine exactly the keywords it was
    given: [include] always, with the default documents and metadatas when
    it is absent or empty, and each of [ids], [where], [where_document],
    [limit] and [offset] only when supplied (an empty [ids] list is handed
    on as such).  It returns the engine's bundle untouched and raises only
    what the engine raised. *)
Theorem get_documents_forwards
    (collection_name : string) (ids : option (list string))
    (where_ where_document : option Filter) (limit offset : option Z)
    (include : option (list string)) (w : World E) :
  exists kwargs : gmap string (Kw Filter),
    kwargs !! "include"
    = Some (KStrs match include with
                  | Some (x :: l) => x :: l
                  | _ => ["documents"; "metadatas"]
                  end)
    /\ kwargs !! "ids" = KStrs <$> ids
    /\ kwargs !! "where" = KFilter <$> where_
    /\ kwargs !! "where_document" = KFilter <$> where_document
    /\ kwargs !! "limit" = KInt <$> limit
    /\ kwargs !! "offset" = KInt <$> offset
    /\ (forall k, k ∉ ["include"; "ids"; "where"; "where_document";
                       "limit"; "offset"] -> kwargs !! k = None)
    /\ get_documents eng col_get_kwargs collection_name ids where_
         where_document limit offset include w
       = match get_collection eng collection_name w with
         | (Raise e, w1) => (Raise e, w1)
         | (Ok col, w1) =>
             ((col_get_kwargs col kwargs (engine w1)).1,
              {| self := self w1;
                 engine := (col_get_kwargs col kwargs (engine w1)).2;
                 calls := calls w1 |})
         end.
Proof.
  eexists. repeat split; cycle 7.
  - unfold get_documents. rewrite bind_eq.
    destruct (get_collection eng collection_name w) as [[col|e] w1]; [|done].
    cbn zeta. apply perform_eq.
  - rewrite !lookup_set_if_given. repeat (case_decide; [done|]).
    rewrite lookup_singleton_eq. by destruct include as [[|]|].
  - rewrite !lookup_set_if_given. repeat (case_decide; [done|]).
    case_decide; [|done]. by destruct ids.
  - rewrite !lookup_set_if_given. repeat (case_decide; [done|]).
    case_decide; [|done]. by destruct where_.
  - rewrite !lookup_set_if_given. repeat (case_decide; [done|]).
    case_decide; [|done]. by destruct where_document.
  - rewrite !lookup_set_if_given. repeat (case_decide; [done|]).
    case_decide; [|done]. by destruct limit.
  - rewrite !lookup_set_if_given.
    case_decide; [|done]. by destruct offset.
  - intros k Hk. rewrite !lookup_set_if_given.
    repeat (case_decide; [subst; exfalso; apply Hk; set_solver|]).
    apply lookup_singleton_ne. intros <-. apply Hk. set_solver.
Qed.

(** X5: [query_documents] always hands the engine the query texts, the
    number of results and [include], with the default documents, metadatas
    and distances when [include] is absent or empty, and the two filters
    only when supplied; it returns the engine's bundle untouched. *)
Theorem query_documents_forwards
    (collection_name : string) (query_texts : list string) (n_results : Z)
    (where_ where_document : option Filter) (include : option (list string))
    (w : World E) :
  exists kwargs : gmap string (Kw Filter),
    kwargs !! "query_texts" = Some (KStrs query_texts)
    /\ kwargs !! "n_results" = Some (KInt n_results)
    /\ kwargs !! "include"
       = Some (KStrs match include with
                     | Some (x :: l) => x :: l
                     | _ => ["documents"; "metadatas"; "distances"]
                     end)
    /\ kwargs !! "where" = KFilter <$> where_
    /\ kwargs !! "where_document" = KFilter <$> where_document
    /\ (forall k, k ∉ ["query_texts"; "n_results"; "include"; "where";
                       "where_document"] -> kwargs !! k = None)
    /\ query_documents eng col_query collection_name query_texts n_results
         where_ where_document include w
       = match get_collection eng collection_name w with
         | (Raise e, w1) => (Raise e, w1)
         | (Ok col, w1) =>
             ((col_query col kwargs (engine w1)).1,
              {| self := self w1;
                 engine := (col_query col kwargs (engine w1)).2;
                 calls := calls w1 |})
         end.
Proof.
  eexists. repeat split; cycle 6.
  - unfold query_documents. rewrite bind_eq.
    destruct (get_collection eng collection_name w) as [[col|e] w1]; [|done].
    cbn zeta. apply perform_eq.
  - rewrite !lookup_set_if_given. repeat (case_decide; [done|]).
    rewrite !lookup_insert_ne by done. apply lookup_singleton_eq.
  - rewrite !lookup_set_if_given. repeat (case_decide; [done|]).
    rewrite lookup_insert_ne by done. apply lookup_insert_eq.
  - rewrite !lookup_set_if_given. repeat (case_decide; [done|]).
    rewrite lookup_insert_eq. by destruct include as [[|]|].
  - rewrite !lookup_set_if_given. repeat (case_decide; [done|]).
    case_decide; [|done]. by destruct where_.
  - rewrite !lookup_set_if_given.
    case_decide; [|done]. by destruct where_document.
  - intros k Hk. rewrite !lookup_set_if_given.
    repeat (case_decide; [subst; exfalso; apply Hk; set_solver|]).
    rewrite !lookup_insert_ne by (intros <-; apply Hk; set_solver).
    apply lookup_singleton_ne. intros <-. apply Hk. set_solver.
Qed.

End ReadSideProps.

Lemma initialize_each_calls (c : Client) (names : list string) (w : World E) :
  exists done_ rest,
    names = done_ ++ rest
    /\ calls (initialize_each eng c names w).2
       = calls w ++ List.map initialize_call done_
    /\ ((initialize_each eng c names w).1 = Ok tt -> rest = []).
Proof.
  revert w. induction names as [|n names IH]; intros w.
  - exists [], []. cbn. by rewrite app_nil_r.
  - cbn [initialize_each]. unfold try_except, raise.
    rewrite !bind_eq, invoke_eq.
    destruct (client_get_or_create_collection eng c n _ (engine w))
      as [[col|e] e1]; cbn [fst snd].
    + unfold mret at 1, M_ret at 1.
      destruct (IH (logged w (initialize_call n) e1))
        as (done_ & rest & -> & Hcalls & Hok).
      exists (n :: done_), rest. split; [done|]. split; [|exact Hok].
      fold (initialize_call n). rewrite Hcalls. cbn [logged calls List.map].
      by rewrite <- app_assoc.
    + exists [n], names. split; [done|]. split; [done|]. discriminate.
Qed.

(** X6: [initialize_collections] asks the engine to get or create the
    required collections one by one in table order, each with the metadata
    description "Collection for <name>", and stops at the first failure: the
    calls it issues are those for an initial run of the required names, and
    for all of them when it returns. *)
Theorem initialize_collections_calls (c : Client) (w : World E) :
  exists done_ rest,
    REQUIRED_COLLECTIONS = done_ ++ rest
    /\ calls (initialize_collections eng c w).2
       = calls w ++ List.map initialize_call done_
    /\ ((initialize_collections eng c w).1 = Ok tt ->
        done_ = REQUIRED_COLLECTIONS).
Proof.
  destruct (initialize_each_calls c REQUIRED_COLLECTIONS w)
    as (done_ & rest & Hsplit & Hcalls & Hok).
  exists done_, rest. split; [done|]. split; [done|].
  intros Hret. rewrite Hsplit, (Hok Hret). by rewrite app_nil_r.
Qed.

End RestAnyEngine.

(** ** Further properties of the store, over the in-memory engine *)

Section RestInMemory.
Import MemEngine.

Lemma client_ready_again (w w1 : World Mem) (c : Client) :
  _client (self w1) = Some c -> client_ready w1 = true.
Proof.
  intros Hc. unfold client_ready. rewrite Hc.
  rewrite bool_decide_eq_true_2; [done|by eexists].
Qed.

Lemma list_collections_mem (limit offset : option Z) (w : World Mem) :
  client_ready w = true ->
  exists w1,
    list_collections mem limit offset w
    = (Ok (let after := match offset with
                        | Some o => slice_from (names (engine w)) o
                        | None => names (engine w)
                        end in
           match limit with Some k => slice_to after k | None => after end),
       w1)
    /\ engine w1 = engine w
    /\ client_ready w1 = true.
Proof.
  intros (c & w1 & d & Hc & He & Hs & _)%client_ready_Ok.
  unfold list_collections. rewrite bind_eq, Hc, bind_eq, invoke_eq.
  cbn [mem client_list_collections engine_list_collections fst snd].
  rewrite names_list_collections, He.
  eexists. split; [reflexivity|]. split; [done|].
  by apply (client_ready_again w _ c).
Qed.

(** X7: paging through [list_collections]: with a non-negative offset and
    limit, the page read with that offset and limit followed by everything
    read from offset + limit on is what is read from the offset on; paging
    neither loses nor repeats a name, and reading changes nothing. *)
Theorem list_collections_pages (o k : Z) (w : World Mem) :
  client_ready w = true -> (0 <= o)%Z -> (0 <= k)%Z ->
  exists page rest w1 w2,
    list_collections mem (Some k) (Some o) w = (Ok page, w1)
    /\ list_collections mem None (Some (o + k)%Z) w1 = (Ok rest, w2)
    /\ page ++ rest = drop (Z.to_nat o) (names (engine w))
    /\ engine w2 = engine w.
Proof.
  intros Hready Ho Hk.
  destruct (list_collections_mem (Some k) (Some o) w Hready)
    as (w1 & Hrun1 & He1 & Hready1).
  destruct (list_collections_mem None (Some (o + k)%Z) w1 Hready1)
    as (w2 & Hrun2 & He2 & _).
  eexists _, _, w1, w2. split; [exact Hrun1|]. split; [exact Hrun2|].
  split; [|congruence]. cbn zeta. rewrite He1. unfold slice_from, slice_to.
  rewrite (proj2 (Z.leb_le _ _) Ho), (proj2 (Z.leb_le _ _) Hk).
  rewrite (proj2 (Z.leb_le 0 (o + k)) ltac:(lia)).
  rewrite Z2Nat.inj_add, <- drop_drop by lia. apply take_drop.
Qed.

Lemma dict_or_empty_or_None (md : option Metadata) :
  dict_or_empty (dict_or_None md) = dict_or_empty md.
Proof.
  destruct md as [m|]; [|done]. cbn. by destruct (decide (m = ∅)) as [->|].
Qed.

(** [metadata or None] never hands the engine an empty dict. *)
Lemma dict_or_None_valid (md : option Metadata) :
  empty_dict (dict_or_None md) = false.
Proof.
  apply empty_dict_false. unfold dict_or_None.
  destruct md as [m|]; [|done]. destruct (decide (m = ∅)); congruence.
Qed.

Lemma create_collection_mem (n : string) (md : option Metadata) (w : World Mem) :
  client_ready w = true ->
  exists w1,
    create_collection mem n md w = (Ok tt, w1)
    /\ client_ready w1 = true
    /\ engine w1
       = match List.find (has_name n) (collections (engine w)) with
         | Some _ => engine w
         | None => (new_collection n (dict_or_None md) (engine w)).2
         end.
Proof.
  intros (c & w1 & d & Hc & He & Hs & _)%client_ready_Ok.
  unfold create_collection. rewrite bind_eq, Hc, bind_eq, invoke_eq.
  cbn [mem client_get_or_create_collection].
  unfold engine_get_or_create_collection. rewrite He, dict_or_None_valid.
  destruct (List.find (has_name n) (collections (engine w))) eqn:Hfind;
    cbn [fst snd]; (eexists; split; [reflexivity|]);
    (split; [by apply (client_ready_again w _ c)|done]).
Qed.

Lemma find_name_new (n : string) (md : option Metadata) (e : Mem) :
  List.find (has_name n) (collections e) = None ->
  List.find (has_name n) (collections (new_collection n md e).2)
  = Some {| handle := {| id := fresh_id (collections e); name := n;
                         metadata := md |};
            docs := [] |}.
Proof.
  intros Hfree. unfold new_collection. cbn [snd set_collections collections].
  rewrite find_app, Hfree. cbn [List.find]. unfold has_name at 1.
  cbn [handle name]. by rewrite String.eqb_refl.
Qed.

(** X8: [create_collection] is create-or-get: it never raises on a name in
    use, and then leaves the collection, its metadata and its documents as
    they were, whatever metadata is passed; repeating it changes nothing. *)
Theorem create_collection_keeps_existing
    (n : string) (md md' : option Metadata) (w : World Mem) :
  client_ready w = true ->
  exists w1 w2,
    create_collection mem n md w = (Ok tt, w1)
    /\ is_Some (List.find (has_name n) (collections (engine w1)))
    /\ (is_Some (List.find (has_name n) (collections (engine w))) ->
        engine w1 = engine w)
    /\ create_collection mem n md' w1 = (Ok tt, w2)
    /\ engine w2 = engine w1.
Proof.
  intros Hready.
  destruct (create_collection_mem n md w Hready) as (w1 & Hrun1 & Hready1 & He1).
  destruct (create_collection_mem n md' w1 Hready1) as (w2 & Hrun2 & _ & He2).
  assert (Hthere : is_Some (List.find (has_name n) (collections (engine w1)))).
  { rewrite He1.
    destruct (List.find (has_name n) (collections (engine w))) eqn:Hf.
    - rewrite Hf. by eexists.
    - rewrite (find_name_new _ _ _ Hf). by eexists. }
  exists w1, w2. split; [done|]. split; [done|]. split; [|split; [done|]].
  - intros [s Hs]. by rewrite He1, Hs.
  - rewrite He2. by destruct Hthere as [s ->].
Qed.

(** X9: round trip of [create_collection] and [get_collection_info]: a
    collection created under a free name is reported back under that name
    with the metadata it was created with, the empty dict standing for no
    metadata, and it holds no documents. *)
Theorem create_then_get_collection_info
    (n : string) (md : option Metadata) (w : World Mem) :
  client_ready w = true ->
  List.find (has_name n) (collections (engine w)) = None ->
  exists w1 w2,
    create_collection mem n md w = (Ok tt, w1)
    /\ get_collection_info mem n w1
       = (Ok {| info_name := n; info_metadata := dict_or_empty md |}, w2)
    /\ docs_of n (engine w1) = Some [].
Proof.
  intros Hready Hfree.
  destruct (create_collection_mem n md w Hready) as (w1 & Hrun1 & Hready1 & He1).
  rewrite Hfree in He1.
  destruct (client_ready_Ok w1 Hready1) as (c & w1' & d & Hc & He & _).
  exists w1. eexists. split; [exact Hrun1|]. split.
  - unfold get_collection_info, get_collection.
    rewrite !bind_eq, Hc, invoke_eq. cbn [mem client_get_collection].
    unfold engine_get_collection. rewrite He, He1, (find_name_new _ _ _ Hfree).
    cbn [fst snd handle name metadata]. unfold mret, M_ret.
    by rewrite dict_or_empty_or_None.
  - unfold docs_of. by rewrite He1, (find_name_new _ _ _ Hfree).
Qed.

Lemma get_collection_mem (n : string) (w : World Mem) :
  client_ready w = true ->
  exists c w1,
    _client_or_raise mem w = (Ok c, w1)
    /\ engine w1 = engine w
    /\ _client (self w1) = Some c
    /\ get_collection mem n w
       = match List.find (has_name n) (collections (engine w)) with
         | Some s => (Ok (handle s), logged w1 (call_get_collection n) (engine w))
         | None =>
             (Raise CollectionNotFoundError,
              logged w1 (call_get_collection n) (engine w))
         end.
Proof.
  intros (c & w1 & d & Hc & He & Hs & _)%client_ready_Ok.
  exists c, w1. split; [done|]. split; [done|]. split; [done|].
  unfold get_collection. rewrite bind_eq, Hc, invoke_eq.
  cbn [mem client_get_collection]. unfold engine_get_collection. rewrite He.
  by destruct (List.find (has_name n) (collections (engine w))).
Qed.

(** What [document_exists] answers over the in-memory engine. *)
Lemma document_exists_mem (n i : string) (w : World Mem) :
  client_ready w = true ->
  NoDup (List.map (fun s => id (handle s)) (collections (engine w))) ->
  (document_exists mem n i w).1
  = Ok match docs_of n (engine w) with
       | Some ds => bool_decide (i ∈ List.map doc_id ds)
       | None => false
       end
  /\ engine (document_exists mem n i w).2 = engine w.
Proof.
  intros Hready Hids.
  destruct (get_collection_mem n w Hready) as (c & w1 & _ & He & _ & Hget).
  unfold document_exists, try_except, docs_of. rewrite bind_eq, Hget.
  destruct (List.find (has_name n) (collections (engine w))) as [s|] eqn:Hfind;
    [|done].
  rewrite bind_eq, invoke_eq. cbn [mem col_get logged engine]. unfold get.
  rewrite (find_id_of_name _ _ _ Hids Hfind). cbn [fst snd ids fmap option_fmap
    option_map]. unfold mret, M_ret. cbn [fst snd logged engine]. split; [|done].
  f_equal. rewrite length_map.
  destruct (List.filter _ (docs s)) as [|d l] eqn:Hsel.
  - symmetry. apply bool_decide_eq_false. intros Hin.
    apply list_elem_of_In, in_map_iff in Hin as (d & Hd & Hin).
    assert (Hd' : In d (List.filter
                     (fun d => bool_decide (doc_id d ∈ [i])) (docs s))).
    { apply filter_In. split; [done|]. apply bool_decide_eq_true_2.
      rewrite Hd. apply list_elem_of_here. }
    by rewrite Hsel in Hd'.
  - symmetry. apply bool_decide_eq_true_2.
    assert (Hd : In d (List.filter
                    (fun d => bool_decide (doc_id d ∈ [i])) (docs s)))
      by (rewrite Hsel; apply in_eq).
    apply filter_In in Hd as [Hin Hi%bool_decide_eq_true].
    apply list_elem_of_singleton in Hi. rewrite <- Hi.
    by apply list_elem_of_In, in_map.
Qed.

(** X10: over the in-memory engine, [document_exists] answers [True]
    exactly when the collection exists and holds a document with that id,
    [False] otherwise, and asking leaves the engine as it was. *)
Theorem document_exists_iff_stored (n i : string) (w : World Mem) :
  client_ready w = true ->
  wf (engine w) ->
  ((document_exists mem n i w).1 = Ok true <->
   exists ds, docs_of n (engine w) = Some ds /\ i ∈ List.map doc_id ds)
  /\ ((document_exists mem n i w).1 = Ok false <->
      forall ds, docs_of n (engine w) = Some ds -> i ∉ List.map doc_id ds)
  /\ engine (document_exists mem n i w).2 = engine w.
Proof.
  intros Hready (Hids & _).
  destruct (document_exists_mem n i w Hready Hids) as [-> He].
  split; [|split; [|done]].
  - destruct (docs_of n (engine w)) as [ds|].
    + split.
      * intros [= H%bool_decide_eq_true]. by exists ds.
      * intros (ds' & [= <-] & Hin). by rewrite bool_decide_eq_true_2.
    + split; [done|]. by intros (ds & ? & _).
  - destruct (docs_of n (engine w)) as [ds|].
    + split.
      * intros [= H%bool_decide_eq_false] ds' [= <-]. done.
      * intros H. by rewrite bool_decide_eq_false_2 by by apply H.
    + split; [done|]. done.
Qed.

(** X11: [delete_collection] on a collection that exists removes it and
    nothing else: afterwards the name is free, every other collection is as
    before, [document_exists] answers [False] for every id under that name
    and [get_collection_info] fails with the engine's
    [CollectionNotFoundError]. *)
Theorem delete_collection_removes (n : string) (w : World Mem) :
  client_ready w = true ->
  wf (engine w) ->
  is_Some (docs_of n (engine w)) ->
  exists w',
    delete_collection mem n w = (Ok tt, w')
    /\ docs_of n (engine w') = None
    /\ (forall m, m <> n -> docs_of m (engine w') = docs_of m (engine w))
    /\ (forall i, (document_exists mem n i w').1 = Ok false)
    /\ (get_collection_info mem n w').1 = Raise CollectionNotFoundError.
Proof.
  intros Hready Hwf [ds (s & Hfind & _)%docs_of_Some].
  destruct (client_ready_Ok w Hready) as (c & w1 & d & Hc & He & Hs & _).
  unfold delete_collection. rewrite bind_eq, Hc, invoke_eq.
  cbn [mem client_delete_collection]. unfold engine_delete_collection.
  rewrite He, Hfind. cbn [fst snd]. eexists. split; [reflexivity|].
  set (w' := logged w1 (call_delete_collection n) _).
  assert (Hgone : docs_of n (engine w') = None).
  { unfold docs_of. cbn. by rewrite find_name_filter_same. }
  assert (Hready' : client_ready w' = true)
    by by apply (client_ready_again w w' c).
  split; [done|]. split; [|split].
  - intros m Hm. unfold docs_of. cbn. by rewrite find_name_filter_other.
  - intros i.
    assert (Hids' : NoDup (List.map (fun s => id (handle s))
                             (collections (engine w')))).
    { cbn. apply NoDup_map_filter. by destruct Hwf. }
    destruct (document_exists_mem n i w' Hready' Hids') as [-> _].
    by rewrite Hgone.
  - destruct (get_collection_mem n w' Hready') as (c' & w2 & _ & _ & _ & Hget).
    unfold get_collection_info. rewrite bind_eq, Hget.
    unfold docs_of in Hgone.
    by destruct (List.find (has_name n) (collections (engine w'))).
Qed.

(** X12: [delete_collection] on a name that is not in use fails with the
    engine's [CollectionNotFoundError], which it does not swallow, and
    leaves the engine as it was. *)
Theorem delete_collection_absent (n : string) (w : World Mem) :
  client_ready w = true ->
  docs_of n (engine w) = None ->
  (delete_collection mem n w).1 = Raise CollectionNotFoundError
  /\ engine (delete_collection mem n w).2 = engine w.
Proof.
  intros (c & w1 & d & Hc & He & _)%client_ready_Ok Hnone.
  unfold delete_collection. rewrite bind_eq, Hc, invoke_eq.
  cbn [mem client_delete_collection]. unfold engine_delete_collection.
  rewrite He. unfold docs_of in Hnone.
  by destruct (List.find (has_name n) (collections (engine w))).
Qed.

Lemma mk_docs_texts (ids documents : list string) (metadatas : list Metadata) :
  length documents = length ids -> length metadatas = length ids ->
  List.map doc_text (mk_docs ids documents metadatas) = documents.
Proof.
  revert documents metadatas.
  induction ids as [|i ids IH]; intros [|d ds] [|m ms]; try done.
  cbn. intros [= Hd] [= Hm]. by rewrite IH.
Qed.

Lemma mk_docs_metadatas (ids documents : list string)
    (metadatas : list Metadata) :
  length documents = length ids -> length metadatas = length ids ->
  List.map doc_metadata (mk_docs ids documents metadatas) = metadatas.
Proof.
  revert documents metadatas.
  induction ids as [|i ids IH]; intros [|d ds] [|m ms]; try done.
  cbn. intros [= Hd] [= Hm]. by rewrite IH.
Qed.

Lemma existsb_disjoint (ids known : list string) :
  (forall i, i ∈ ids -> i ∉ known) ->
  existsb (fun i => bool_decide (i ∈ known)) ids = false.
Proof.
  intros Hdis. destruct (existsb _ ids) eqn:Hex; [|done].
  apply existsb_exists in Hex as (i & Hi%list_elem_of_In & Hk%bool_decide_eq_true).
  by destruct (Hdis i Hi).
Qed.

(** Adding fresh, well-shaped documents, over the in-memory engine. *)
Lemma add_documents_mem (n : string) (ids documents : list string)
    (metadatas : list Metadata) (s : Stored) (w : World Mem) :
  client_ready w = true ->
  NoDup (List.map (fun s => id (handle s)) (collections (engine w))) ->
  List.find (has_name n) (collections (engine w)) = Some s ->
  NoDup ids ->
  (forall i, i ∈ ids -> i ∉ List.map doc_id (docs s)) ->
  length documents = length ids ->
  length metadatas = length ids ->
  Forall (fun m => m <> ∅) metadatas ->
  exists w1,
    add_documents mem n ids documents (Some metadatas) w = (Ok (length ids), w1)
    /\ client_ready w1 = true
    /\ collections (engine w1)
       = alter_id
           (fun s0 => {| handle := handle s0;
                         docs := docs s0 ++ mk_docs ids documents metadatas |})
           (id (handle s)) (collections (engine w)).
Proof.
  intros Hready Hids Hfind Hnd Hfresh Hd Hm Hdescribed.
  destruct (get_collection_mem n w Hready) as (c & w1 & _ & He & Hs & Hget).
  unfold add_documents.
  assert (Hnorm :
    (if negb (length (list_or (Some metadatas) (replicate (length ids) ∅))
              =? length ids)%nat
     then replicate (length ids) (∅ : Metadata)
     else list_or (Some metadatas) (replicate (length ids) ∅))
    = metadatas).
  { destruct metadatas as [|m ms]; cbn [list_or].
    - destruct ids; [done|discriminate].
    - apply Nat.eqb_eq in Hm. by rewrite Hm. }
  rewrite Hnorm, bind_eq, Hget, Hfind, bind_eq, invoke_eq.
  cbn [mem col_add logged engine]. unfold add.
  rewrite (find_id_of_name _ _ _ Hids Hfind).
  rewrite Hd, Hm, Nat.eqb_refl. cbn [andb negb].
  rewrite (existsb_empty_dict _ Hdescribed).
  rewrite (bool_decide_eq_true_2 _ Hnd), (existsb_disjoint _ _ Hfresh).
  cbn [negb orb fst snd]. eexists. split; [reflexivity|].
  split; [|done]. by apply (client_ready_again w _ c).
Qed.

Lemma filter_ids_added (ids : list string) (old new : list Document) :
  (forall i, i ∈ ids -> i ∉ List.map doc_id old) ->
  List.map doc_id new = ids ->
  List.filter (fun d => bool_decide (doc_id d ∈ ids)) (old ++ new) = new.
Proof.
  intros Hfresh Hnew. rewrite List.filter_app.
  rewrite (List_filter_none _ old), forallb_filter_id; [done| |].
  - apply forallb_forall. intros d Hd. apply bool_decide_eq_true_2.
    rewrite <- Hnew. by apply list_elem_of_In, in_map.
  - intros d Hd. apply bool_decide_eq_false. intros Hin.
    apply (Hfresh _ Hin). by apply list_elem_of_In, in_map, list_elem_of_In.
Qed.

(** X13: round trip of [add_documents] and [get_documents]: after adding
    at least one id, with texts and metadatas of equal length, every
    metadata a non-empty dict, and ids that are distinct and new to the
    collection, looking the same ids up returns a bundle holding exactly
    those ids, texts and metadatas, in the order given. *)
Theorem add_then_get_documents
    (n : string) (ids documents : list string) (metadatas : list Metadata)
    (ds : list Document) (w : World Mem) :
  client_ready w = true ->
  wf (engine w) ->
  docs_of n (engine w) = Some ds ->
  ids <> [] ->
  NoDup ids ->
  (forall i, i ∈ ids -> i ∉ List.map doc_id ds) ->
  length documents = length ids ->
  length metadatas = length ids ->
  Forall (fun m => m <> ∅) metadatas ->
  exists w1 w2,
    add_documents mem n ids documents (Some metadatas) w = (Ok (length ids), w1)
    /\ get_documents mem mem_get_kwargs n (Some ids) None None None None None w1
       = (Ok {| ids := Some ids;
                documents := Some documents;
                metadatas := Some metadatas |}, w2).
Proof.
  intros Hready (Hids & _ & _) (s & Hfind & <-)%docs_of_Some _ Hnd Hfresh Hd Hm
         Hdescribed.
  destruct (add_documents_mem n ids documents metadatas s w)
    as (w1 & Hadd & Hready1 & Hcs); try done.
  destruct (get_collection_mem n w1 Hready1) as (c & w1' & _ & He & _ & Hget).
  exists w1. eexists. split; [exact Hadd|].
  set (f := fun s0 : Stored =>
              {| handle := handle s0;
                 docs := docs s0 ++ mk_docs ids documents metadatas |}) in *.
  assert (Hname : List.find (has_name n) (collections (engine w1)) = Some (f s)).
  { rewrite Hcs. by apply find_name_alter_id. }
  assert (Hid : List.find (has_id (id (handle s))) (collections (engine w1))
                = Some (f s)).
  { apply (find_id_of_name n _ (f s)); [|done].
    rewrite Hcs, alter_id_map; done. }
  unfold get_documents. rewrite bind_eq, Hget, Hname. cbn zeta.
  rewrite perform_eq. cbn [logged engine handle f].
  unfold mem_get_kwargs. rewrite Hid.
  cbn [set_if_given fmap option_fmap option_map].
  rewrite lookup_insert_eq.
  rewrite !lookup_insert_ne, !lookup_singleton_ne, lookup_singleton_eq by done.
  cbn [f docs fst snd].
  rewrite (filter_ids_added ids (docs s) (mk_docs ids documents metadatas))
    by (try done; by apply mk_docs_ids).
  rewrite !bool_decide_eq_true_2 by (repeat constructor).
  rewrite mk_docs_ids, mk_docs_texts, mk_docs_metadatas by done.
  reflexivity.
Qed.

Lemma list_collections_slice_witness :
  _client_or_raise mem sample_world
  = (Ok (client_at "/p/.cliplin/data/context"),
     (_client_or_raise mem sample_world).2)
  /\ (list_collections mem (Some 1%Z) (Some 1%Z) sample_world).1 = Ok ["uisi"].
Proof.
  split; [reflexivity|].
  destruct (list_collections_slice mem (Some 1%Z) (Some 1%Z) sample_world
              (_client_or_raise mem sample_world).2
              (client_at "/p/.cliplin/data/context")
              (List.map handle (collections sample_engine)) sample_engine
              eq_refl eq_refl)
    as (l & pre & post & Hrun & _ & _ & _ & Hcut & _).
  rewrite Hrun. cbn [fst]. f_equal.
  apply (Hcut 1%Z 1%Z eq_refl eq_refl); lia.
Defined.

Lemma list_collections_pages_witness :
  client_ready sample_world = true
  /\ exists page rest w1 w2,
       list_collections mem (Some 1%Z) (Some 0%Z) sample_world = (Ok page, w1)
       /\ list_collections mem None (Some (0 + 1)%Z) w1 = (Ok rest, w2)
       /\ page ++ rest = ["features"; "uisi"]
       /\ engine w2 = engine sample_world.
Proof.
  split; [reflexivity|].
  apply (list_collections_pages 0 1 sample_world eq_refl); lia.
Defined.

Lemma create_collection_keeps_existing_witness :
  client_ready sample_world = true
  /\ exists w1 w2,
       create_collection mem "features" (Some sample_metadata) sample_world
       = (Ok tt, w1)
       /\ is_Some (List.find (has_name "features") (collections (engine w1)))
       /\ (is_Some (List.find (has_name "features")
                      (collections (engine sample_world))) ->
           engine w1 = engine sample_world)
       /\ create_collection mem "features" None w1 = (Ok tt, w2)
       /\ engine w2 = engine w1.
Proof.
  split; [reflexivity|].
  exact (create_collection_keeps_existing "features" (Some sample_metadata)
           None sample_world eq_refl).
Defined.

Lemma create_then_get_collection_info_witness :
  client_ready sample_world = true
  /\ List.find (has_name "tech-specs") (collections (engine sample_world)) = None
  /\ exists w1 w2,
       create_collection mem "tech-specs" (Some sample_metadata) sample_world
       = (Ok tt, w1)
       /\ get_collection_info mem "tech-specs" w1
          = (Ok {| info_name := "tech-specs";
                   info_metadata := dict_or_empty (Some sample_metadata) |}, w2)
       /\ docs_of "tech-specs" (engine w1) = Some [].
Proof.
  split; [reflexivity|]. split; [reflexivity|].
  exact (create_then_get_collection_info "tech-specs" (Some sample_metadata)
           sample_world eq_refl eq_refl).
Defined.

Lemma document_exists_iff_stored_witness :
  client_ready sample_world = true
  /\ wf (engine sample_world)
  /\ (document_exists mem "features" "a" sample_world).1 = Ok true.
Proof.
  split; [reflexivity|]. split; [exact sample_engine_wf|].
  apply (document_exists_iff_stored "features" "a" sample_world eq_refl
           sample_engine_wf).
  eexists. split; [reflexivity|]. apply list_elem_of_here.
Defined.

Lemma delete_collection_removes_witness :
  client_ready sample_world = true
  /\ wf (engine sample_world)
  /\ is_Some (docs_of "features" (engine sample_world))
  /\ exists w',
       delete_collection mem "features" sample_world = (Ok tt, w')
       /\ docs_of "features" (engine w') = None
       /\ (forall m, m <> "features" ->
             docs_of m (engine w') = docs_of m (engine sample_world))
       /\ (forall i, (document_exists mem "features" i w').1 = Ok false)
       /\ (get_collection_info mem "features" w').1
          = Raise CollectionNotFoundError.
Proof.
  split; [reflexivity|]. split; [exact sample_engine_wf|].
  split; [by eexists|].
  apply (delete_collection_removes "features" sample_world eq_refl
           sample_engine_wf).
  by eexists.
Defined.

Lemma delete_collection_absent_witness :
  client_ready sample_world = true
  /\ docs_of "tech-specs" (engine sample_world) = None
  /\ (delete_collection mem "tech-specs" sample_world).1
     = Raise CollectionNotFoundError
  /\ engine (delete_collection mem "tech-specs" sample_world).2
     = engine sample_world.
Proof.
  split; [reflexivity|]. split; [reflexivity|].
  exact (delete_collection_absent "tech-specs" sample_world eq_refl eq_refl).
Defined.

Lemma add_then_get_documents_witness :
  client_ready sample_world = true
  /\ wf (engine sample_world)
  /\ docs_of "uisi" (engine sample_world) = Some []
  /\ exists w1 w2,
       add_documents mem "uisi" ["x"; "y"] ["dx"; "dy"]
         (Some [sample_metadata; {[ "n" := SInt 2 ]}]) sample_world = (Ok 2, w1)
       /\ get_documents mem mem_get_kwargs "uisi" (Some ["x"; "y"])
            None None None None None w1
          = (Ok {| ids := Some ["x"; "y"];
                   documents := Some ["dx"; "dy"];
                   metadatas := Some [sample_metadata; {[ "n" := SInt 2 ]}] |}, w2).
Proof.
  split; [reflexivity|]. split; [exact sample_engine_wf|].
  split; [reflexivity|].
  apply (add_then_get_documents "uisi" ["x"; "y"] ["dx"; "dy"]
           [sample_metadata; {[ "n" := SInt 2 ]}] [] sample_world eq_refl sample_engine_wf
           eq_refl).
  - done.
  - apply (bool_decide_unpack _). reflexivity.
  - intros i _. apply not_elem_of_nil.
  - reflexivity.
  - reflexivity.
  - repeat constructor; apply map_non_empty_singleton.
Defined.

(** Deleting documents, over the in-memory engine. *)
Lemma delete_documents_mem (n : string) (ids : list string) (s : Stored)
    (w : World Mem) :
  client_ready w = true ->
  List.find (has_name n) (collections (engine w)) = Some s ->
  exists w1,
    delete_documents mem n ids w = (Ok (length ids), w1)
    /\ client_ready w1 = true
    /\ collections (engine w1)
       = alter_id
           (fun s0 => {| handle := handle s0;
                         docs := List.filter
                                   (fun d => negb (bool_decide (doc_id d ∈ ids)))
                                   (docs s0) |})
           (id (handle s)) (collections (engine w)).
Proof.
  intros Hready Hfind.
  destruct (get_collection_mem n w Hready) as (c & w1 & _ & He & Hs & Hget).
  unfold delete_documents. rewrite bind_eq, Hget, Hfind, bind_eq, invoke_eq.
  cbn [mem col_delete logged engine]. unfold delete.
  destruct (find_has_id_is_Some _ _ _ Hfind) as [s' ->]. cbn [fst snd].
  eexists. split; [reflexivity|]. split; [|done].
  by apply (client_ready_again w _ c).
Qed.

Lemma filter_ids_removed (ids : list string) (old new : list Document) :
  (forall i, i ∈ ids -> i ∉ List.map doc_id old) ->
  List.map doc_id new = ids ->
  List.filter (fun d => negb (bool_decide (doc_id d ∈ ids))) (old ++ new) = old.
Proof.
  intros Hfresh Hnew. rewrite List.filter_app.
  rewrite (List_filter_none _ new), forallb_filter_id, app_nil_r; [done| |].
  - apply forallb_forall. intros d Hd.
    apply negb_true_iff, bool_decide_eq_false. intros Hin.
    apply (Hfresh _ Hin). by apply list_elem_of_In, in_map.
  - intros d Hd. apply negb_false_iff, bool_decide_eq_true_2.
    rewrite <- Hnew. by apply list_elem_of_In, in_map, list_elem_of_In.
Qed.

(** X16: for at least one id and metadatas that are non-empty dicts,
    [add_documents] followed by [delete_documents] of the same ids
    restores the collection: after the add every added id exists, after the
    delete none of them does and the collection holds the documents it held
    before; both calls return the number of ids. *)
Theorem add_then_delete_documents
    (n : string) (ids documents : list string) (metadatas : list Metadata)
    (ds : list Document) (w : World Mem) :
  client_ready w = true ->
  wf (engine w) ->
  docs_of n (engine w) = Some ds ->
  ids <> [] ->
  NoDup ids ->
  (forall i, i ∈ ids -> i ∉ List.map doc_id ds) ->
  length documents = length ids ->
  length metadatas = length ids ->
  Forall (fun m => m <> ∅) metadatas ->
  exists w1 w2,
    add_documents mem n ids documents (Some metadatas) w = (Ok (length ids), w1)
    /\ (forall i, i ∈ ids -> (document_exists mem n i w1).1 = Ok true)
    /\ delete_documents mem n ids w1 = (Ok (length ids), w2)
    /\ (forall i, i ∈ ids -> (document_exists mem n i w2).1 = Ok false)
    /\ docs_of n (engine w2) = Some ds.
Proof.
  intros Hready (Hids & _ & _) (s & Hfind & <-)%docs_of_Some _ Hnd Hfresh Hd Hm
         Hdescribed.
  destruct (add_documents_mem n ids documents metadatas s w)
    as (w1 & Hadd & Hready1 & Hcs1); try done.
  set (f := fun s0 : Stored =>
              {| handle := handle s0;
                 docs := docs s0 ++ mk_docs ids documents metadatas |}) in *.
  assert (Hfind1 : List.find (has_name n) (collections (engine w1)) = Some (f s)).
  { rewrite Hcs1. by apply find_name_alter_id. }
  assert (Hids1 : NoDup (List.map (fun s => id (handle s))
                           (collections (engine w1)))).
  { rewrite Hcs1, alter_id_map; done. }
  destruct (delete_documents_mem n ids (f s) w1 Hready1 Hfind1)
    as (w2 & Hdel & Hready2 & Hcs2).
  set (g := fun s0 : Stored =>
              {| handle := handle s0;
                 docs := List.filter
                           (fun d => negb (bool_decide (doc_id d ∈ ids)))
                           (docs s0) |}) in *.
  assert (Hfind2 : List.find (has_name n) (collections (engine w2))
                   = Some (g (f s))).
  { rewrite Hcs2. by apply find_name_alter_id. }
  assert (Hids2 : NoDup (List.map (fun s => id (handle s))
                           (collections (engine w2)))).
  { rewrite Hcs2, alter_id_map; done. }
  assert (Hback : docs (g (f s)) = docs s).
  { cbn [g f docs]. apply filter_ids_removed; [done|]. by apply mk_docs_ids. }
  exists w1, w2. split; [done|]. split; [|split; [done|split]].
  - intros i Hi.
    destruct (document_exists_mem n i w1 Hready1 Hids1) as [-> _].
    unfold docs_of. rewrite Hfind1. cbn [fmap option_fmap option_map f docs].
    f_equal. apply bool_decide_eq_true_2.
    rewrite List.map_app, mk_docs_ids by done. apply elem_of_app. by right.
  - intros i Hi.
    destruct (document_exists_mem n i w2 Hready2 Hids2) as [-> _].
    unfold docs_of. rewrite Hfind2. cbn [fmap option_fmap option_map].
    rewrite Hback. f_equal. apply bool_decide_eq_false_2. by apply Hfresh.
  - unfold docs_of. rewrite Hfind2. cbn [fmap option_fmap option_map].
    by rewrite Hback.
Qed.

Lemma add_then_delete_documents_witness :
  client_ready sample_world = true
  /\ wf (engine sample_world)
  /\ docs_of "uisi" (engine sample_world) = Some []
  /\ exists w1 w2,
       add_documents mem "uisi" ["x"; "y"] ["dx"; "dy"]
         (Some [sample_metadata; {[ "n" := SInt 2 ]}]) sample_world = (Ok 2, w1)
       /\ (forall i, i ∈ ["x"; "y"] ->
             (document_exists mem "uisi" i w1).1 = Ok true)
       /\ delete_documents mem "uisi" ["x"; "y"] w1 = (Ok 2, w2)
       /\ (forall i, i ∈ ["x"; "y"] ->
             (document_exists mem "uisi" i w2).1 = Ok false)
       /\ docs_of "uisi" (engine w2) = Some [].
Proof.
  split; [reflexivity|]. split; [exact sample_engine_wf|].
  split; [reflexivity|].
  apply (add_then_delete_documents "uisi" ["x"; "y"] ["dx"; "dy"]
           [sample_metadata; {[ "n" := SInt 2 ]}] [] sample_world eq_refl sample_engine_wf
           eq_refl).
  - done.
  - apply (bool_decide_unpack _). reflexivity.
  - intros i _. apply not_elem_of_nil.
  - reflexivity.
  - reflexivity.
  - repeat constructor; apply map_non_empty_singleton.
Defined.

(** Given no metadata or a non-empty dict, [get_or_create_collection]
    keeps every collection there is, and makes the missing one empty with
    the metadata given. *)
Lemma get_or_create_keeps (c : Client) (n : string) (md : option Metadata)
    (e : Mem) :
  md <> Some ∅ ->
  exists h e',
    engine_get_or_create_collection c n md e = (Ok h, e')
    /\ (forall m s, List.find (has_name m) (collections e) = Some s ->
          List.find (has_name m) (collections e') = Some s)
    /\ (List.find (has_name n) (collections e) = None ->
        exists s, List.find (has_name n) (collections e') = Some s
                  /\ docs s = [] /\ metadata (handle s) = md)
    /\ (forall m, m <> n -> List.find (has_name m) (collections e) = None ->
          List.find (has_name m) (collections e') = None).
Proof.
  intros Hmd%empty_dict_false.
  unfold engine_get_or_create_collection. rewrite Hmd.
  destruct (List.find (has_name n) (collections e)) as [s|] eqn:Hfind.
  - exists (handle s), e. split; [done|]. split; [done|]. done.
  - pose proof (find_name_new n md e Hfind) as Hnew.
    unfold new_collection in *. cbn [snd] in Hnew.
    eexists _, _. split; [reflexivity|]. split; [|split].
    + intros m s Hs. cbn [set_collections collections].
      by rewrite find_app, Hs.
    + intros _. rewrite Hnew. by eexists.
    + intros m Hm Hnone. cbn [set_collections collections].
      rewrite find_app, Hnone. cbn [List.find]. unfold has_name at 1.
      cbn [handle name]. apply String.eqb_neq in Hm.
      rewrite String.eqb_sym in Hm. by rewrite Hm.
Qed.

Lemma find_name_None (n : string) (e : Mem) :
  n ∉ names e -> List.find (has_name n) (collections e) = None.
Proof.
  intros Hn. apply find_none_all_false. intros s Hs.
  apply String.eqb_neq. intros <-. apply Hn. unfold names.
  apply list_elem_of_In, (in_map (fun s => name (handle s))), list_elem_of_In, Hs.
Qed.

Lemma create_each_keeps (c : Client) (l : list string) (w : World Mem) :
  exists w',
    create_each mem c l w = (Ok tt, w')
    /\ self w' = self w
    /\ (forall m s, List.find (has_name m) (collections (engine w)) = Some s ->
          List.find (has_name m) (collections (engine w')) = Some s)
    /\ (forall n, n ∈ l ->
          List.find (has_name n) (collections (engine w)) = None ->
          exists s, List.find (has_name n) (collections (engine w')) = Some s
                    /\ docs s = [] /\ metadata (handle s) = None).
Proof.
  revert w. induction l as [|n l IH]; intros w.
  - exists w. repeat split; try done. by intros n ?%elem_of_nil.
  - cbn [create_each]. rewrite bind_eq, invoke_eq.
    cbn [mem client_get_or_create_collection].
    destruct (get_or_create_keeps c n None (engine w) ltac:(done))
      as (h & e' & -> & Hkeep & Hnew & Hother). cbn [fst snd].
    destruct (IH (logged w (call_get_or_create_collection n None) e'))
      as (w' & -> & Hself & Hkeep' & Hnew').
    cbn [logged engine self] in *.
    exists w'. split; [done|]. split; [done|]. split.
    + intros m s Hs. by apply Hkeep', Hkeep.
    + intros m [->|Hm]%elem_of_cons Hnone.
      * destruct (Hnew Hnone) as (s & Hs & Hd & Hmd).
        exists s. split; [by apply Hkeep'|done].
      * destruct (decide (m = n)) as [->|Hne].
        -- destruct (Hnew Hnone) as (s & Hs & Hd & Hmd).
           exists s. split; [by apply Hkeep'|done].
        -- apply Hnew'; [done|]. by apply Hother.
Qed.

Lemma ensure_collections_run_keeps (w : World Mem) :
  client_ready w = true ->
  exists w',
    ensure_collections mem w = (Ok (missing_in (engine w)), w')
    /\ (forall m s, List.find (has_name m) (collections (engine w)) = Some s ->
          List.find (has_name m) (collections (engine w')) = Some s)
    /\ (forall n, n ∈ missing_in (engine w) ->
          exists s, List.find (has_name n) (collections (engine w')) = Some s
                    /\ docs s = [] /\ metadata (handle s) = None).
Proof.
  intros (c & w1 & d & Hc & He & Hs & _)%client_ready_Ok.
  unfold ensure_collections, verify_collections.
  rewrite bind_eq, Hc, !bind_eq, invoke_eq.
  cbn [mem client_list_collections engine_list_collections fst snd].
  unfold mret at 1, M_ret at 1. rewrite names_list_collections, He.
  fold (missing_in (engine w)). rewrite bind_eq.
  destruct (create_each_keeps c (missing_in (engine w))
              (logged w1 call_list_collections (engine w)))
    as (w' & -> & _ & Hkeep & Hnew). cbn [logged engine] in *.
  exists w'. split; [done|]. split; [done|].
  intros n Hn. apply Hnew; [done|]. apply find_name_None.
  unfold missing_in in Hn. apply elem_of_List_filter in Hn as [_ Hn].
  by apply negb_true_iff, bool_decide_eq_false in Hn.
Qed.

(** X17: [ensure_collections] never touches a collection that is there:
    every existing collection keeps its handle, metadata and documents, and
    each collection it reports as missing is created empty and without
    metadata. *)
Theorem ensure_collections_keeps_existing (w : World Mem) :
  client_ready w = true ->
  exists missing w',
    ensure_collections mem w = (Ok missing, w')
    /\ (forall m s, List.find (has_name m) (collections (engine w)) = Some s ->
          List.find (has_name m) (collections (engine w')) = Some s)
    /\ (forall n, n ∈ missing ->
          (n ∉ names (engine w))
          /\ exists s, List.find (has_name n) (collections (engine w')) = Some s
                       /\ docs s = [] /\ metadata (handle s) = None).
Proof.
  intros (w' & Hrun & Hkeep & Hnew)%ensure_collections_run_keeps.
  exists (missing_in (engine w)), w'. split; [done|]. split; [done|].
  intros n Hn. split; [|by apply Hnew].
  unfold missing_in in Hn. apply elem_of_List_filter in Hn as [_ Hn].
  by apply negb_true_iff, bool_decide_eq_false in Hn.
Qed.

Lemma ensure_collections_keeps_existing_witness :
  client_ready sample_world = true
  /\ exists missing w',
       ensure_collections mem sample_world = (Ok missing, w')
       /\ docs_of "features" (engine w') = docs_of "features" sample_engine.
Proof.
  split; [reflexivity|].
  destruct (ensure_collections_keeps_existing sample_world eq_refl)
    as (missing & w' & Hrun & Hkeep & _).
  exists missing, w'. split; [exact Hrun|]. unfold docs_of.
  by rewrite (Hkeep "features" _ eq_refl).
Defined.


Lemma find_name_elem (n : string) (e : Mem) (s : Stored) :
  List.find (has_name n) (collections e) = Some s -> n ∈ names e.
Proof.
  intros [Hin <-]%find_has_name. unfold names.
  apply list_elem_of_In, (in_map (fun s => name (handle s))), list_elem_of_In, Hin.
Qed.

Lemma initialize_each_keeps (c : Client) (l : list string) (w : World Mem) :
  exists w',
    initialize_each mem c l w = (Ok tt, w')
    /\ (forall m s, List.find (has_name m) (collections (engine w)) = Some s ->
          List.find (has_name m) (collections (engine w')) = Some s)
    /\ (forall n, n ∈ l ->
          List.find (has_name n) (collections (engine w)) = None ->
          exists s, List.find (has_name n) (collections (engine w')) = Some s
                    /\ docs s = []
                    /\ metadata (handle s)
                       = Some {[ "description" :=
                                   SStr ("Collection for " ++ n)%string ]}).
Proof.
  revert w. induction l as [|n l IH]; intros w.
  - exists w. repeat split; try done. by intros n ?%elem_of_nil.
  - cbn [initialize_each]. unfold try_except, raise.
    rewrite !bind_eq, invoke_eq.
    cbn [mem client_get_or_create_collection].
    assert (Hvalid : Some ({[ "description" :=
                                SStr ("Collection for " ++ n)%string ]}
                             : Metadata) <> Some ∅).
    { intros Hempty%(inj Some). by apply map_non_empty_singleton in Hempty. }
    destruct (get_or_create_keeps c n _ (engine w) Hvalid)
      as (h & e' & -> & Hkeep & Hnew & Hother). cbn [fst snd].
    unfold mret at 1, M_ret at 1. cbn [fst snd].
    destruct (IH (logged w (initialize_call n) e'))
      as (w' & Hrun & Hkeep' & Hnew').
    unfold initialize_call in Hrun. rewrite Hrun.
    cbn [logged engine self] in *.
    exists w'. split; [done|]. split.
    + intros m s Hs. by apply Hkeep', Hkeep.
    + intros m Hm Hnone. destruct (decide (m = n)) as [->|Hne].
      * destruct (Hnew Hnone) as (s & Hs & Hd & Hmd).
        exists s. split; [by apply Hkeep'|done].
      * apply elem_of_cons in Hm as [?|Hm]; [done|].
        apply Hnew'; [done|]. by apply Hother.
Qed.

(** X18: over the in-memory engine [initialize_collections] always returns,
    and right after it [verify_collections] reports nothing missing; a
    collection that was there keeps its handle, metadata and documents (its
    description is not rewritten), and each required collection that was
    absent is created empty with the description "Collection for <name>". *)
Theorem initialize_then_verify (c : Client) (w : World Mem) :
  exists w' w'',
    initialize_collections mem c w = (Ok tt, w')
    /\ verify_collections mem c w' = (Ok [], w'')
    /\ (forall m s, List.find (has_name m) (collections (engine w)) = Some s ->
          List.find (has_name m) (collections (engine w')) = Some s)
    /\ (forall n, n ∈ REQUIRED_COLLECTIONS -> n ∉ names (engine w) ->
          exists s, List.find (has_name n) (collections (engine w')) = Some s
                    /\ docs s = []
                    /\ metadata (handle s)
                       = Some {[ "description" :=
                                   SStr ("Collection for " ++ n)%string ]}).
Proof.
  destruct (initialize_each_keeps c REQUIRED_COLLECTIONS w)
    as (w' & Hrun & Hkeep & Hnew).
  assert (Hall : forall n, n ∈ REQUIRED_COLLECTIONS -> n ∈ names (engine w')).
  { intros n Hn.
    destruct (List.find (has_name n) (collections (engine w))) as [s|] eqn:Hf.
    - by apply (find_name_elem n _ s), Hkeep.
    - destruct (Hnew n Hn Hf) as (s & Hs & _). by apply (find_name_elem n _ s). }
  exists w'. eexists. split; [exact Hrun|]. split; [|split; [exact Hkeep|]].
  - unfold verify_collections. rewrite bind_eq, invoke_eq.
    cbn [mem client_list_collections engine_list_collections fst snd].
    unfold mret, M_ret. rewrite names_list_collections.
    f_equal. f_equal. apply List_filter_none. intros n Hn.
    apply negb_false_iff, bool_decide_eq_true_2, Hall, Hn.
  - intros n Hn Habs. apply Hnew; [done|]. by apply find_name_None.
Qed.

(** ** Renaming and re-describing a collection *)














(** X22: no operation on the documents or the description of a collection
    creates it.  When the name is not in use, [add_documents],
    [update_documents], [delete_documents], [modify_collection] and
    [get_collection_info] raise the engine's not-found error and leave the
    engine as it was; so does [fork_collection] when its source is missing,
    before it has deleted anything under the destination name. *)
Theorem missing_collection_raises (n : string) (w : World Mem) :
  client_ready w = true ->
  List.find (has_name n) (collections (engine w)) = None ->
  (forall ids documents metadatas, exists w',
     add_documents mem n ids documents metadatas w
     = (Raise CollectionNotFoundError, w') /\ engine w' = engine w)
  /\ (forall ids documents metadatas, exists w',
        update_documents mem n ids documents metadatas w
        = (Raise CollectionNotFoundError, w') /\ engine w' = engine w)
  /\ (forall ids, exists w',
        delete_documents mem n ids w
        = (Raise CollectionNotFoundError, w') /\ engine w' = engine w)
  /\ (forall new_name new_metadata, exists w',
        modify_collection mem n new_name new_metadata w
        = (Raise CollectionNotFoundError, w') /\ engine w' = engine w)
  /\ (exists w',
        get_collection_info mem n w
        = (Raise CollectionNotFoundError, w') /\ engine w' = engine w)
  /\ (forall new_collection_name metadata, exists w',
        fork_collection mem n new_collection_name metadata w
        = (Raise CollectionNotFoundError, w') /\ engine w' = engine w).
Proof.
  intros Hready Hnone.
  destruct (get_collection_mem n w Hready) as (c & w0 & Hc & He & _ & Hget).
  rewrite Hnone in Hget.
  repeat split; intros.
  - unfold add_documents. cbv zeta. rewrite bind_eq, Hget. by eexists.
  - unfold update_documents. rewrite bind_eq, Hget. by eexists.
  - unfold delete_documents. rewrite bind_eq, Hget. by eexists.
  - unfold modify_collection. rewrite bind_eq, Hget. by eexists.
  - unfold get_collection_info. rewrite bind_eq, Hget. by eexists.
  - unfold fork_collection. rewrite bind_eq, Hc, bind_eq, invoke_eq.
    cbn [mem client_get_collection]. unfold engine_get_collection.
    rewrite He, Hnone. by eexists.
Qed.

Lemma missing_collection_raises_witness :
  client_ready sample_world = true
  /\ List.find (has_name "tech-specs") (collections (engine sample_world)) = None
  /\ exists w',
       add_documents mem "tech-specs" ["a"] ["text"] None sample_world
       = (Raise CollectionNotFoundError, w')
       /\ engine w' = engine sample_world.
Proof.
  split; [reflexivity|]. split; [reflexivity|].
  exact (proj1 (missing_collection_raises "tech-specs" sample_world
                  eq_refl eq_refl) ["a"] ["text"] None).
Defined.

End RestInMemory.

(** ** Further properties of the classifiers *)

(** X14: whatever the path, a collection name returned by
    [get_collection_for_file] is one of the required collections, and a type
    returned by [get_file_type] is the type tag of a mapping of the table. *)
Theorem classifiers_answer_from_table (file_path project_root : Path) :
  match get_collection_for_file file_path project_root with
  | Ok (Some c) => c ∈ REQUIRED_COLLECTIONS
  | _ => True
  end
  /\ match get_file_type file_path project_root with
     | Ok (Some t) => t ∈ List.map (fun cm => type cm.2) COLLECTION_MAPPINGS
     | _ => True
     end.
Proof.
  destruct (relative_to file_path project_root) as [rel|e] eqn:Hrel.
  - rewrite (get_collection_for_file_find _ _ _ Hrel),
      (get_file_type_find _ _ _ Hrel).
    destruct (List.find _ _) as [[[c m] d]|] eqn:Hfind; [|done].
    apply find_some in Hfind as [Hin _]. cbn [option_map fst snd].
    cbn in Hin. split; intuition (simplify_eq; cbn; set_solver).
  - unfold get_collection_for_file, get_file_type. by rewrite Hrel.
Qed.

Lemma starts_with_parts_app (l t : list string) :
  starts_with_parts l (l ++ t) = true.
Proof. induction l as [|x l IH]; [done|]. cbn. by rewrite String.eqb_refl. Qed.

Lemma relative_to_under (root : Path) (t : list string) :
  relative_to {| anchor := anchor root; tail := tail root ++ t |} root
  = Ok {| anchor := ""; tail := t |}.
Proof.
  unfold relative_to, is_relative_to. cbn [anchor tail].
  rewrite String.eqb_refl, starts_with_parts_app. cbn [andb].
  by rewrite drop_app_length.
Qed.

Lemma find_ext {A} (f g : A -> bool) (l : list A) :
  (forall x, x ∈ l -> f x = g x) -> List.find f l = List.find g l.
Proof.
  induction l as [|x l IH]; [done|]. intros H. cbn.
  rewrite <- (H x) by apply list_elem_of_here. destruct (f x); [done|].
  apply IH. intros y Hy. apply H. by apply list_elem_of_further.
Qed.

(** X15: classification depends only on the path relative to the root: the
    same components placed under two different roots classify alike, for
    the collection and for the type. *)
Theorem classification_ignores_root (root root' : Path) (t : list string) :
  get_collection_for_file {| anchor := anchor root; tail := tail root ++ t |} root
  = get_collection_for_file
      {| anchor := anchor root'; tail := tail root' ++ t |} root'
  /\ get_file_type {| anchor := anchor root; tail := tail root ++ t |} root
     = get_file_type {| anchor := anchor root'; tail := tail root' ++ t |} root'.
Proof.
  rewrite !(get_collection_for_file_find _ _ _ (relative_to_under _ t)).
  rewrite !(get_file_type_find _ _ _ (relative_to_under _ t)).
  assert (Hfind :
    List.find (pair_matches {| anchor := anchor root; tail := tail root ++ t |}
                 {| anchor := ""; tail := t |})
      (routing_pairs COLLECTION_MAPPINGS)
    = List.find (pair_matches
                   {| anchor := anchor root'; tail := tail root' ++ t |}
                   {| anchor := ""; tail := t |})
        (routing_pairs COLLECTION_MAPPINGS)).
  { apply find_ext. intros p Hp. unfold pair_matches, pathlib.name.
    cbn [tail]. destruct t as [|x t _] using rev_ind.
    - apply list_elem_of_In in Hp. cbn in Hp.
      intuition (subst; reflexivity).
    - by rewrite !app_assoc, !List.last_last. }
  by rewrite Hfind.
Qed.

(** Two prefixes of one string are comparable. *)
Lemma prefix_comparable (p q s : string) :
  String.prefix p s = true -> String.prefix q s = true ->
  String.prefix p q = true \/ String.prefix q p = true.
Proof.
  revert q s. induction p as [|a p IH]; intros q s; [left; by destruct q|].
  destruct q as [|b q]; [by right|].
  destruct s as [|c s]; [done|]. cbn [String.prefix].
  destruct (Ascii.ascii_dec a c) as [->|]; [|done].
  destruct (Ascii.ascii_dec b c) as [->|]; [|done].
  destruct (Ascii.ascii_dec c c); [|done]. apply IH.
Qed.

(** No mapped directory string begins another, so at most one of them
    begins a given path string. *)
Lemma mapped_directory_unique (s d d' : string) :
  d ∈ mapped_directories -> d' ∈ mapped_directories ->
  startswith s d = true -> startswith s d' = true -> d = d'.
Proof.
  unfold startswith. intros Hd Hd' Hp Hp'.
  destruct (prefix_comparable d d' s Hp Hp') as [Hc|Hc]; revert Hc;
    unfold mapped_directories in Hd, Hd'; cbn in Hd, Hd';
    repeat (apply elem_of_cons in Hd as [->|Hd]);
    try (by apply elem_of_nil in Hd);
    repeat (apply elem_of_cons in Hd' as [->|Hd']);
    try (by apply elem_of_nil in Hd'); by vm_compute.
Qed.

(** X21: the routing is unambiguous.  Once the root-relative path string
    begins with the directory string of a routing pair, that pair's mapping
    alone decides: the file is routed to its collection (and typed with its
    type tag) when the base name matches its glob, and is unrouted
    otherwise, whatever the other mappings and the order of the table. *)
Theorem routing_decided_by_directory
    (file_path project_root rel : Path) (p : string * Mapping * string) :
  relative_to file_path project_root = Ok rel ->
  p ∈ routing_pairs COLLECTION_MAPPINGS ->
  startswith (str rel) p.2 = true ->
  get_collection_for_file file_path project_root
  = Ok (if fnmatchcase (pathlib.name file_path) (file_pattern p.1.2)
        then Some p.1.1 else None)
  /\ get_file_type file_path project_root
     = Ok (if fnmatchcase (pathlib.name file_path) (file_pattern p.1.2)
           then Some (type p.1.2) else None).
Proof.
  intros Hrel Hp Hstart.
  rewrite (get_collection_for_file_find _ _ _ Hrel),
    (get_file_type_find _ _ _ Hrel).
  assert (Hfind :
    List.find (pair_matches file_path rel) (routing_pairs COLLECTION_MAPPINGS)
    = if fnmatchcase (pathlib.name file_path) (file_pattern p.1.2)
      then Some p else None).
  { assert (Hother : forall d, d ∈ mapped_directories ->
              d <> p.2 -> startswith (str rel) d = false).
    { intros d Hd Hne. destruct (startswith (str rel) d) eqn:Hs; [|done].
      exfalso. apply Hne.
      apply (mapped_directory_unique (str rel)); try done.
      unfold mapped_directories.
      by apply list_elem_of_In, (in_map snd), list_elem_of_In. }
    unfold pair_matches.
    cbn -[startswith fnmatchcase str pathlib.name] in Hp |- *.
    repeat (apply elem_of_cons in Hp as [->|Hp]);
      try (by apply elem_of_nil in Hp).
    all: cbn -[startswith fnmatchcase str pathlib.name mapped_directories]
           in Hstart, Hother |- *.
    all: rewrite ?Hstart.
    all: repeat match goal with
      | |- context [startswith _ ?d] =>
          rewrite (Hother d);
            [|unfold mapped_directories; cbn;
              repeat first [apply list_elem_of_here | apply list_elem_of_further]
             |done]
      end.
    all: cbn -[fnmatchcase pathlib.name].
    all: by repeat case_match. }
  rewrite Hfind. by destruct (fnmatchcase _ _).
Qed.

Lemma routing_decided_by_directory_witness :
  relative_to (PurePath "/p/docs/features/notes.md") (PurePath "/p")
  = Ok (PurePath "docs/features/notes.md")
  /\ startswith (str (PurePath "docs/features/notes.md")) "docs/features" = true
  /\ get_collection_for_file (PurePath "/p/docs/features/notes.md")
       (PurePath "/p") = Ok None
  /\ get_file_type (PurePath "/p/docs/features/notes.md") (PurePath "/p")
     = Ok None.
Proof.
  split; [reflexivity|]. split; [reflexivity|].
  apply (routing_decided_by_directory
           (PurePath "/p/docs/features/notes.md") (PurePath "/p")
           (PurePath "docs/features/notes.md")
           ("features",
            {| directories := ["docs/features"];
               file_pattern := "*.feature"; type := "feature" |},
            "docs/features")).
  - reflexivity.
  - apply list_elem_of_further, list_elem_of_further, list_elem_of_here.
  - reflexivity.
Defined.
